(** * AlgoliaSearch/models.py: the index binding and its full rebuilds

    A shallow embedding of [AlgoliaIndex] (construction, name resolution,
    document building, in-place and blue/green rebuild) together with the
    properties of the specification that were checked against it.

    Conventions of the embedding:
    - Python values that travel through the code are of type [value];
      dictionaries are finite maps keyed by strings.
    - A Python call that may raise returns a [result].
    - Calls on the search client are threaded through the monad [M]: a
      computation reads the history of client calls made so far and
      returns its outcome together with the calls it made itself, in
      order, each with the answer of the client. *)

From Stdlib Require Import ZArith QArith.
From stdpp Require Import base strings list gmap.

Set Warnings "-register-all,-clear-no-such-hyp".
Local Open Scope Z_scope.

(** ** Values, exceptions, outcomes *)

Inductive value : Type :=
| VNone
| VBool (b : bool)
| VInt (z : Z)
| VFloat (q : Q)
| VStr (s : string)
| VTuple (l : list value)
| VList (l : list value)
| VDict (d : gmap string value)
| VObject (tag : string).

(** The two messages of [AlgoliaIndexError] raised by the constructor. *)
Inductive index_error : Type :=
| NotAField (field : string)      (* '{} is not a field of {}' *)
| BadGeoField.                    (* '`geo_field` should be a tuple or ...' *)

Inductive exn : Type :=
| AlgoliaIndexError (why : index_error)
| AttributeError (name : string)
| KeyError (key : value)
| IndexError
| TypeError
| ValueError
| ClientError (msg : string).

Inductive result (A : Type) : Type :=
| Ok (a : A)
| Raised (e : exn).
Arguments Ok {A} a.
Arguments Raised {A} e.

Definition is_Ok {A} (r : result A) : Prop :=
  match r with Ok _ => True | Raised _ => False end.

Definition is_Raised {A} (r : result A) : Prop :=
  match r with Ok _ => False | Raised _ => True end.

#[global] Instance result_ret : MRet result := @Ok.
#[global] Instance result_bind : MBind result :=
  λ A B f r, match r with Ok a => f a | Raised e => Raised e end.
#[global] Instance result_fmap : FMap result :=
  λ A B f r, match r with Ok a => Ok (f a) | Raised e => Raised e end.

(** Truth value of a Python object, as tested by [if x:]. *)
Definition truthy (v : value) : bool :=
  match v with
  | VNone => false
  | VBool b => b
  | VInt z => negb (z =? 0)
  | VFloat q => negb (Qeq_bool q 0)
  | VStr s => negb (String.eqb s "")
  | VTuple l | VList l => match l with [] => false | _ => true end
  | VDict d => bool_decide (d ≠ ∅)
  | VObject _ => true
  end.

(** [if s:] for an attribute that is [None] or a string. *)
Definition truthy_name (o : option string) : bool :=
  match o with
  | Some s => negb (String.eqb s "")
  | None => false
  end.

(** [v[i]] for an integer index [i >= 0]. *)
Definition getitem (v : value) (i : nat) : result value :=
  match v with
  | VTuple l | VList l =>
      match l !! i with Some x => Ok x | None => Raised IndexError end
  | VStr s =>
      match String.get i s with
      | Some c => Ok (VStr (String c EmptyString))
      | None => Raised IndexError
      end
  | VDict _ => Raised (KeyError (VInt (Z.of_nat i)))
  | _ => Raised TypeError
  end.

(** [v[k]] for a string key [k]. *)
Definition getitem_key (v : value) (k : string) : result value :=
  match v with
  | VDict d =>
      match d !! k with Some x => Ok x | None => Raised (KeyError (VStr k)) end
  | _ => Raised TypeError
  end.

(** ** Records and their classes *)

(** What [getattr] finds under a name: a plain value, or a callable taking
    no argument, given by what calling it does.  A callable is taken to
    answer the same at every call: selectors that keep state between
    calls are outside the model. *)
Inductive attr : Type :=
| Data (v : value)
| Callable (call : result value).

Definition callable (a : attr) : bool :=
  match a with Callable _ => true | Data _ => false end.

Definition getattr (o : gmap string attr) (name : string) : result attr :=
  match o !! name with
  | Some a => Ok a
  | None => Raised (AttributeError name)
  end.

(** [isinstance(attr, tuple)] *)
Definition is_tuple (a : attr) : bool :=
  match a with Data (VTuple _) => true | _ => false end.

(** A record of the collection: its primary key [instance.pk] and the
    attributes reachable by [getattr(instance, name)]. *)
Record instance : Type := {
  pk : value;
  attrs : gmap string attr
}.

(** The collection's class as the binding uses it. *)
Record Model : Type := {
  __name__ : string;                    (* model.__name__ *)
  get_all_field_names : list string;    (* model._meta.get_all_field_names() *)
  class_attrs : gmap string attr;       (* getattr(model, name) *)
  blank : instance;                     (* model() *)
  objects_all : list instance           (* model.objects.all() *)
}.

(** The process-wide configuration read by name resolution. *)
Record django_settings : Type := {
  ALGOLIA_INDEX_PREFIX : option string;
  ALGOLIA_INDEX_SUFFIX : option string
}.

(** ** The search client *)

(** A document is a dictionary. *)
Abbreviation doc := (gmap string value) (only parsing).

Inductive call : Type :=
| InitIndex (name : string)
| SetSettings (idx : string) (s : gmap string value)
| ClearIndex (idx : string)
| SaveObject (idx : string) (obj : doc)
| SaveObjects (idx : string) (batch : list doc)
| DeleteObject (idx : string) (id : value)
| WaitTask (idx : string) (task : value)
| MoveIndex (src dst : string).

(** A call made, with the answer of the client. *)
Abbreviation event := (call * result value)%type (only parsing).

(** A client answers a call knowing every call made before it. *)
Record client : Type := {
  respond : list event → call → result value
}.

(** Computations that talk to the client. *)
Definition M (A : Type) : Type := list event → result A * list event.

Definition ret_M {A} (a : A) : M A := λ _, (Ok a, []).

Definition bind_M {A B} (m : M A) (f : A → M B) : M B :=
  λ h, match m h with
       | (Ok a, t1) => let '(r, t2) := f a (h ++ t1) in (r, t1 ++ t2)
       | (Raised e, t1) => (Raised e, t1)
       end.

(** A pure step that may raise. *)
Definition lift {A} (r : result A) : M A := λ _, (r, []).

(** A call answered by the client. *)
Definition invoke (cl : client) (c : call) : M value :=
  λ h, let r := respond cl h c in (r, [(c, r)]).

(** [client.init_index(name)] only builds a handle for the named index;
    the handle is identified with the name. *)
Definition init_index (name : string) : M string :=
  λ _, (Ok name, [(InitIndex name, Ok (VObject name))]).

#[global] Instance M_ret : MRet M := @ret_M.
#[global] Instance M_bind : MBind M := λ A B f m, bind_M m f.

(** ** The index binding *)

(** The [fields] attribute as a subclass declares it: one string, or a
    sequence of names. *)
Inductive fields_decl : Type :=
| FieldsStr (s : string)
| FieldsSeq (l : list string).

(** The class attributes a subclass of [AlgoliaIndex] may override. *)
Record Declaration : Type := {
  decl_fields : fields_decl;
  decl_geo_field : option string;
  decl_index_name : option string;
  decl_settings : gmap string value
}.

(** The binding once constructed. *)
Record AlgoliaIndex : Type := {
  model : Model;
  fields : list string;
  geo_field : option string;
  index_name : string;
  settings : gmap string value;
  __client : client;
  __index : string;
  __tmp_index : string
}.

(** The three assignments to [self.index_name] at the head of
    [__set_index]. *)
Definition resolved_index_name (cfg : django_settings) (m : Model)
    (declared : option string) : string :=
  let index_name :=
    if truthy_name declared then default "" declared else __name__ m in
  let index_name :=
    if truthy_name (ALGOLIA_INDEX_PREFIX cfg)
    then (default "" (ALGOLIA_INDEX_PREFIX cfg) +:+ "_") +:+ index_name
    else index_name in
  let index_name :=
    if truthy_name (ALGOLIA_INDEX_SUFFIX cfg)
    then index_name +:+ ("_" +:+ default "" (ALGOLIA_INDEX_SUFFIX cfg))
    else index_name in
  index_name.

Definition __set_index (cfg : django_settings) (m : Model)
    (declared : option string) : M (string * string * string) :=
  let index_name := resolved_index_name cfg m declared in
  idx ← init_index index_name;
  tmp ← init_index (index_name +:+ "_tmp");
  mret (index_name, idx, tmp).

(** The loop of the constructor over the declared fields. *)
Fixpoint check_fields (inst : instance) (all_fields fields : list string)
    : result unit :=
  match fields with
  | [] => Ok ()
  | field :: rest =>
      a ← getattr (attrs inst) field;
      if callable a then check_fields inst all_fields rest
      else if bool_decide (field ∈ all_fields)
           then check_fields inst all_fields rest
           else Raised (AlgoliaIndexError (NotAField field))
  end.

(** The check of [geo_field] in the constructor. *)
Definition check_geo_field (m : Model) (geo : option string) : result unit :=
  if truthy_name geo then
    a ← getattr (class_attrs m) (default "" geo);
    if negb (is_tuple a || callable a)
    then Raised (AlgoliaIndexError BadGeoField)
    else Ok ()
  else Ok ().

(** [l.remove(x)]: drops the first [x]; [ValueError] when there is none. *)
Fixpoint list_remove (x : string) (l : list string) : result (list string) :=
  match l with
  | [] => Raised ValueError
  | y :: l' =>
      if decide (x = y) then Ok l'
      else r ← list_remove x l'; Ok (y :: r)
  end.

(** [if isinstance(self.fields, str): self.fields = (self.fields, )] *)
Definition normalize_fields (d : fields_decl) : list string :=
  match d with
  | FieldsStr s => [s]
  | FieldsSeq l => l
  end.

(** [if not self.fields: self.fields = all_fields; self.fields.remove('id')] *)
Definition default_fields (all_fields fields : list string)
    : result (list string) :=
  match fields with
  | [] => list_remove "id" all_fields
  | _ :: _ => Ok fields
  end.

Definition __init__ (cfg : django_settings) (d : Declaration)
    (m : Model) (cl : client) : M AlgoliaIndex :=
  '(index_name, idx, tmp) ← __set_index cfg m (decl_index_name d);
  let all_fields := get_all_field_names m in
  let fields := normalize_fields (decl_fields d) in
  let inst := blank m in
  lift (check_fields inst all_fields fields) ;;
  lift (check_geo_field m (decl_geo_field d)) ;;
  fields ← lift (default_fields all_fields fields);
  mret {| model := m; fields := fields; geo_field := decl_geo_field d;
          index_name := index_name; settings := decl_settings d;
          __client := cl; __index := idx; __tmp_index := tmp |}.

(** [if callable(attr): attr = attr()] *)
Definition call_if_callable (a : attr) : result value :=
  match a with
  | Callable r => r
  | Data v => Ok v
  end.

(** The loop of [__build_object] over the fields. *)
Fixpoint build_fields (inst : instance) (fields : list string) (tmp : doc)
    : result doc :=
  match fields with
  | [] => Ok tmp
  | field :: rest =>
      a ← getattr (attrs inst) field;
      v ← call_if_callable a;
      build_fields inst rest (<[field := v]> tmp)
  end.

Definition __build_object (self : AlgoliaIndex) (inst : instance)
    : result doc :=
  let tmp : doc := {["objectID" := pk inst]} in
  tmp ← build_fields inst (fields self) tmp;
  if truthy_name (geo_field self) then
    a ← getattr (attrs inst) (default "" (geo_field self));
    v ← call_if_callable a;
    lat ← getitem v 0;
    lng ← getitem v 1;
    Ok (<["_geoloc" := VDict (<["lng" := lng]> {["lat" := lat]})]> tmp)
  else Ok tmp.

Definition update_obj_index (self : AlgoliaIndex) (inst : instance) : M unit :=
  obj ← lift (__build_object self inst);
  invoke (__client self) (SaveObject (__index self) obj) ;;
  mret ().

Definition delete_obj_index (self : AlgoliaIndex) (inst : instance) : M unit :=
  invoke (__client self) (DeleteObject (__index self) (pk inst)) ;;
  mret ().

Definition set_settings (self : AlgoliaIndex) : M unit :=
  if bool_decide (settings self ≠ ∅) then
    invoke (__client self) (SetSettings (__index self) (settings self)) ;;
    mret ()
  else mret ().

Definition clear_index (self : AlgoliaIndex) : M unit :=
  invoke (__client self) (ClearIndex (__index self)) ;;
  mret ().

(** The [for] loop of [index_all]; its state is [batch] and [counts]. *)
Fixpoint index_all_loop (self : AlgoliaIndex) (batch_size : Z)
    (records : list instance) (batch : list doc) (counts : nat)
    : M (list doc * nat) :=
  match records with
  | [] => mret (batch, counts)
  | inst :: rest =>
      obj ← lift (__build_object self inst);
      let batch := batch ++ [obj] in
      batch ← (if Z.of_nat (length batch) >=? batch_size then
                 invoke (__client self) (SaveObjects (__index self) batch) ;;
                 mret []
               else mret batch);
      index_all_loop self batch_size rest batch (S counts)
  end.

Definition index_all (self : AlgoliaIndex) (batch_size : Z) : M nat :=
  set_settings self ;;
  clear_index self ;;
  '(batch, counts) ←
    index_all_loop self batch_size (objects_all (model self)) [] 0%nat;
  (if (0 <? length batch)%nat then
     invoke (__client self) (SaveObjects (__index self) batch) ;;
     mret ()
   else mret ()) ;;
  mret counts.

(** The [for] loop of [reindex_all]; its state is [batch], [counts] and
    [result]. *)
Fixpoint reindex_all_loop (self : AlgoliaIndex) (batch_size : Z)
    (records : list instance) (batch : list doc) (counts : nat)
    (result : value) : M (list doc * nat * value) :=
  match records with
  | [] => mret (batch, counts, result)
  | inst :: rest =>
      obj ← lift (__build_object self inst);
      let batch := batch ++ [obj] in
      '(batch, result) ←
        (if Z.of_nat (length batch) >=? batch_size then
           r ← invoke (__client self) (SaveObjects (__tmp_index self) batch);
           mret ([], r)
         else mret (batch, result));
      reindex_all_loop self batch_size rest batch (S counts) result
  end.

Definition reindex_all (self : AlgoliaIndex) (batch_size : Z) : M nat :=
  (if bool_decide (settings self ≠ ∅) then
     invoke (__client self) (SetSettings (__tmp_index self) (settings self)) ;;
     mret ()
   else mret ()) ;;
  invoke (__client self) (ClearIndex (__tmp_index self)) ;;
  '(batch, counts, result) ←
    reindex_all_loop self batch_size (objects_all (model self)) [] 0%nat VNone;
  result ← (if (0 <? length batch)%nat then
              invoke (__client self) (SaveObjects (__tmp_index self) batch)
            else mret result);
  (if truthy result then
     task ← lift (getitem_key result "taskID");
     invoke (__client self) (WaitTask (__tmp_index self) task) ;;
     invoke (__client self)
       (MoveIndex (index_name self +:+ "_tmp") (index_name self)) ;;
     mret ()
   else mret ()) ;;
  mret counts.

(** ** The Batch Uploader of the specification

    Both rebuilds run the same loop, once against the primary and once
    against the shadow index.  [upload_loop] is that loop with the target,
    the client and the document builder as parameters; the two loops of the
    code are shown below to be instances of it. *)
Fixpoint upload_loop (cl : client) (build : instance → result doc)
    (idx : string) (batch_size : Z) (records : list instance)
    (batch : list doc) (counts : nat) (result : value)
    : M (list doc * nat * value) :=
  match records with
  | [] => mret (batch, counts, result)
  | inst :: rest =>
      obj ← lift (build inst);
      let batch := batch ++ [obj] in
      '(batch, result) ←
        (if Z.of_nat (length batch) >=? batch_size then
           r ← invoke cl (SaveObjects idx batch);
           mret ([], r)
         else mret (batch, result));
      upload_loop cl build idx batch_size rest batch (S counts) result
  end.

(** ** Reading traces *)

(** The index a call is addressed to, for the calls made on an index
    handle. *)
Definition target (c : call) : option string :=
  match c with
  | SetSettings i _ | ClearIndex i | SaveObject i _ | SaveObjects i _
  | DeleteObject i _ | WaitTask i _ => Some i
  | InitIndex _ | MoveIndex _ _ => None
  end.

Definition on_index (i : string) (ev : event) : Prop := target ev.1 = Some i.

(** The calls that reach the engine: all but the creation of a handle. *)
Definition is_remote (c : call) : bool :=
  match c with InitIndex _ => false | _ => true end.

Definition is_move (c : call) : bool :=
  match c with MoveIndex _ _ => true | _ => false end.

Definition is_wait (c : call) : bool :=
  match c with WaitTask _ _ => true | _ => false end.

Definition is_clear (c : call) : bool :=
  match c with ClearIndex _ => true | _ => false end.

Definition is_flush (c : call) : bool :=
  match c with SaveObjects _ _ => true | _ => false end.

(** The batches flushed along a trace, in order. *)
Definition flushes (t : list event) : list (list doc) :=
  omap (λ ev : event, match ev.1 with
                      | SaveObjects _ b => Some b
                      | _ => None
                      end) t.

(** How many calls of a kind a trace holds. *)
Definition count (p : call → bool) (t : list event) : nat :=
  length (filter (λ ev : event, p ev.1 = true) t).

(** A flush of [batch] to [idx] that the client answered. *)
Definition flush_to (idx : string) (ev : event) : Prop :=
  ∃ b r, ev = (SaveObjects idx b, Ok r).

(** The answer to the last call of a trace that was answered, [d] when
    there is none. *)
Definition last_answer (t : list event) (d : value) : value :=
  foldl (λ acc (ev : event), match ev.2 with Ok r => r | Raised _ => acc end)
    d t.

Definition never_raises (cl : client) : Prop :=
  ∀ h c, is_Ok (respond cl h c).

(** [ceil(n / b)] for [b >= 1]. *)
Definition ceil_div (n b : Z) : Z := (n + b - 1) / b.

(** ** The remote engine

    The engine is outside the repository.  What is assumed of it: a call
    made on an index handle changes at most the state of that index (how,
    is left open: [effect]), and a move may change anything
    ([move_effect]). *)
Section Engine.
Context {index_state : Type}.
Variable effect : call → result value → option index_state → option index_state.
Variable move_effect :
  string → string → result value →
  gmap string index_state → gmap string index_state.

Definition engine_step (e : gmap string index_state) (ev : event)
    : gmap string index_state :=
  match ev.1 with
  | InitIndex _ => e
  | MoveIndex src dst => move_effect src dst ev.2 e
  | c => match target c with
         | Some i => partial_alter (effect c ev.2) i e
         | None => e
         end
  end.

Definition engine_run (e : gmap string index_state) (t : list event)
    : gmap string index_state :=
  foldl engine_step e t.

End Engine.

(** [emits P m]: whatever the history, every call [m] makes satisfies [P]. *)
Definition emits {A} (P : event → Prop) (m : M A) : Prop :=
  ∀ h, Forall P (m h).2.


(** [index_all] keeps no [result]: its loop is the uploader with the last
    answer forgotten. *)
Definition forget_result (r : result (list doc * nat * value))
    : result (list doc * nat) :=
  x ← r; Ok (x.1.1, x.1.2).

(** ** Name resolution as the specification words it

    [resolve_names] of the specification: the name wrapped as
    [prefix + "_" + name] and [name + "_" + suffix] where a prefix or a
    suffix is configured, and the shadow name made of it. *)
Definition resolve_names (global_prefix global_suffix : option string)
    (name : string) : string * string :=
  let name :=
    match global_prefix with Some p => p +:+ "_" +:+ name | None => name end in
  let name :=
    match global_suffix with Some s => name +:+ "_" +:+ s | None => name end in
  (name, name +:+ "_tmp").

(** A prefix or suffix counts as configured when it is a non-empty
    string. *)
Definition configured (o : option string) : option string :=
  if truthy_name o then o else None.

(** A binding whose handles are those of its names: the primary handle
    for [index_name], the shadow handle for [index_name + '_tmp']. *)
Definition bound (self : AlgoliaIndex) : Prop :=
  __index self = index_name self ∧
  __tmp_index self = index_name self +:+ "_tmp".

(** ** Selectors as the specification words them

    Applying a selector to a record: the attribute of that name, invoked
    with no argument when it is callable, read as it is otherwise. *)
Definition read_selector (inst : instance) (name : string) : result value :=
  match attrs inst !! name with
  | Some (Callable r) => r
  | Some (Data v) => Ok v
  | None => Raised (AttributeError name)
  end.

(** ** The two phases of the blue/green rebuild

    [reindex_all] first uploads to the shadow index (settings, clear, the
    loop and the last flush), then, depending on [result], waits and
    moves.  The two phases are named here; [reindex_all] is shown below to
    be the first followed by the second. *)
Definition reindex_upload (self : AlgoliaIndex) (batch_size : Z)
    : M (nat * value) :=
  (if bool_decide (settings self ≠ ∅) then
     invoke (__client self) (SetSettings (__tmp_index self) (settings self)) ;;
     mret ()
   else mret ()) ;;
  invoke (__client self) (ClearIndex (__tmp_index self)) ;;
  '(batch, counts, result) ←
    reindex_all_loop self batch_size (objects_all (model self)) [] 0%nat VNone;
  result ← (if (0 <? length batch)%nat then
              invoke (__client self) (SaveObjects (__tmp_index self) batch)
            else mret result);
  mret (counts, result).

Definition reindex_swap (self : AlgoliaIndex) (result : value) : M unit :=
  if truthy result then
    task ← lift (getitem_key result "taskID");
    invoke (__client self) (WaitTask (__tmp_index self) task) ;;
    invoke (__client self)
      (MoveIndex (index_name self +:+ "_tmp") (index_name self)) ;;
    mret ()
  else mret ().

(** The uploads of [index_all] once the index is cleared. *)
Definition index_upload (self : AlgoliaIndex) (batch_size : Z) : M nat :=
  '(batch, counts) ←
    index_all_loop self batch_size (objects_all (model self)) [] 0%nat;
  (if (0 <? length batch)%nat then
     invoke (__client self) (SaveObjects (__index self) batch) ;;
     mret ()
   else mret ()) ;;
  mret counts.

(** The settings call of a rebuild on the index [idx], when there is
    one. *)
Definition settings_calls (self : AlgoliaIndex) (idx : string) : list call :=
  if bool_decide (settings self ≠ ∅) then [SetSettings idx (settings self)]
  else [].

(** The flushes of a trace cut [n] records into batches of [b]: there are
    [ceil(n / b)] of them, their sizes add up to [n], and all but the last
    hold exactly [b] documents. *)
Definition flushed_in_batches (n : nat) (b : Z) (t : list event) : Prop :=
  Z.of_nat (length (flushes t)) = ceil_div (Z.of_nat n) b ∧
  sum_list (length <$> flushes t) = n ∧
  (∀ i batch, flushes t !! i = Some batch →
     (S i < length (flushes t))%nat → Z.of_nat (length batch) = b) ∧
  (n = 0%nat → flushes t = []).

(** An event whose answer is what the client [cl] gives to its call after
    some history. *)
Definition answered_by (cl : client) (ev : event) : Prop :=
  ∃ h, ev.2 = respond cl h ev.1.

(** ** Sample data

    A small collection, bindings over it and clients, on which the
    statements below are evaluated. *)

Definition loc12 : value := VTuple [VFloat 1; VFloat 2].

Definition post (n : Z) (title : string) : instance :=
  {| pk := VInt n;
     attrs := <["id" := Data (VInt n)]>
              (<["title" := Data (VStr title)]>
              (<["loc" := Data loc12]>
              (<["slug" := Callable (Ok (VStr ("post-" +:+ title)))]>
              (<["pk" := Data (VInt n)]> ∅)))) |}.

Definition Post : Model :=
  {| __name__ := "Post";
     get_all_field_names := ["id"; "title"];
     class_attrs := <["loc" := Data loc12]>
                    (<["loc3" := Data (VTuple [VFloat 1; VFloat 2; VFloat 3])]>
                    (<["slug" := Callable (Ok (VStr "post-"))]> ∅));
     blank := post 0 "";
     objects_all := [post 7 "x"; post 8 "y"; post 9 "z"] |}.

(** A collection without records. *)
Definition Empty_Post : Model :=
  {| __name__ := "Post";
     get_all_field_names := ["id"; "title"];
     class_attrs := ∅;
     blank := post 0 "";
     objects_all := [] |}.

(** A collection with a field of its own called [objectID]. *)
Definition legacy (n : Z) (oid : string) : instance :=
  {| pk := VInt n;
     attrs := <["id" := Data (VInt n)]>
              (<["objectID" := Data (VStr oid)]> ∅) |}.

Definition Legacy : Model :=
  {| __name__ := "Legacy";
     get_all_field_names := ["id"; "objectID"];
     class_attrs := ∅;
     blank := legacy 0 "";
     objects_all := [legacy 7 "legacy-7"] |}.

(** A collection whose primary key is not called [id]. *)
Definition Country : Model :=
  {| __name__ := "Country";
     get_all_field_names := ["code"; "name"];
     class_attrs := ∅;
     blank := {| pk := VStr "";
                 attrs := <["code" := Data (VStr "")]>
                          (<["name" := Data (VStr "")]> ∅) |};
     objects_all := [] |}.

Definition plain_cfg : django_settings :=
  {| ALGOLIA_INDEX_PREFIX := None; ALGOLIA_INDEX_SUFFIX := None |}.

Definition wrapped_cfg : django_settings :=
  {| ALGOLIA_INDEX_PREFIX := Some "prod"; ALGOLIA_INDEX_SUFFIX := Some "v1" |}.

Definition ranking : gmap string value :=
  {["attributesToIndex" := VList [VStr "title"]]}.

(** [fields = ('title',)], [geo_field = 'loc'] *)
Definition title_loc : Declaration :=
  {| decl_fields := FieldsSeq ["title"]; decl_geo_field := Some "loc";
     decl_index_name := None; decl_settings := ranking |}.

(** [fields = ('objectID',)] *)
Definition objectID_decl : Declaration :=
  {| decl_fields := FieldsSeq ["objectID"]; decl_geo_field := None;
     decl_index_name := None; decl_settings := ∅ |}.

(** [fields = ('nope',)]: no such attribute, no such field. *)
Definition nope_decl : Declaration :=
  {| decl_fields := FieldsSeq ["nope"]; decl_geo_field := None;
     decl_index_name := None; decl_settings := ∅ |}.

(** [fields = ('pk',)]: an attribute that is no field and not callable. *)
Definition pk_decl : Declaration :=
  {| decl_fields := FieldsSeq ["pk"]; decl_geo_field := None;
     decl_index_name := None; decl_settings := ∅ |}.

(** [geo_field = 'loc3'], a tuple of three. *)
Definition loc3_decl : Declaration :=
  {| decl_fields := FieldsSeq ["title"]; decl_geo_field := Some "loc3";
     decl_index_name := None; decl_settings := ∅ |}.

(** Nothing declared. *)
Definition bare_decl : Declaration :=
  {| decl_fields := FieldsSeq []; decl_geo_field := None;
     decl_index_name := None; decl_settings := ∅ |}.

(** [fields = 'title'] *)
Definition str_decl : Declaration :=
  {| decl_fields := FieldsStr "title"; decl_geo_field := None;
     decl_index_name := None; decl_settings := ∅ |}.

(** A client that answers every call with a task numbered by the calls
    made so far. *)
Definition task_client : client :=
  {| respond := λ h _, Ok (VDict {["taskID" := VInt (Z.of_nat (length h))]}) |}.

(** A client that answers every call with [None]. *)
Definition none_client : client :=
  {| respond := λ _ _, Ok VNone |}.

(** A client whose every call raises. *)
Definition down_client : client :=
  {| respond := λ _ _, Raised (ClientError "unreachable") |}.

(** The binding [__init__] builds from a declaration over [Post]. *)
Definition post_index (cfg : django_settings) (d : Declaration)
    (m : Model) (cl : client) (fs : list string) : AlgoliaIndex :=
  let n := resolved_index_name cfg m (decl_index_name d) in
  {| model := m; fields := fs; geo_field := decl_geo_field d;
     index_name := n; settings := decl_settings d;
     __client := cl; __index := n; __tmp_index := n +:+ "_tmp" |}.

(** ** Runs that stop at the first call that raises

    A run is [stopped_at_raise] when every call it made was answered,
    except possibly the last one, whose exception is then the outcome of
    the run. *)
Definition all_answered (t : list event) : Prop :=
  Forall (λ ev : event, is_Ok ev.2) t.

Definition stopped_at_raise {A} (x : result A * list event) : Prop :=
  match x.1 with
  | Ok _ => all_answered x.2
  | Raised e =>
      all_answered x.2 ∨
      ∃ t c, x.2 = t ++ [(c, Raised e)] ∧ all_answered t
  end.

Definition stops_at_raise {A} (m : M A) : Prop :=
  ∀ h, stopped_at_raise (m h).

(** The loop and the last flush of [reindex_all], without the settings
    and the clear before them. *)
Definition reindex_batches (self : AlgoliaIndex) (batch_size : Z)
    : M (nat * value) :=
  '(batch, counts, result) ←
    reindex_all_loop self batch_size (objects_all (model self)) [] 0%nat VNone;
  result ← (if (0 <? length batch)%nat then
              invoke (__client self) (SaveObjects (__tmp_index self) batch)
            else mret result);
  mret (counts, result).

(** [upsert] then [remove] of one record, as a caller chains them. *)
Definition update_then_delete (self : AlgoliaIndex) (inst : instance)
    : M unit :=
  update_obj_index self inst ;; delete_obj_index self inst.

(** The document a binding builds from a record, read off key by key:
    the geo pair under [_geoloc] when a geo-selector is configured, the
    value of the selector under the name of a field, the primary key
    under [objectID], nothing elsewhere. *)
Definition document_entry (self : AlgoliaIndex) (inst : instance)
    (k : string) : option value :=
  if truthy_name (geo_field self) && bool_decide (k = "_geoloc") then
    match read_selector inst (default "" (geo_field self)) with
    | Ok v =>
        match getitem v 0, getitem v 1 with
        | Ok lat, Ok lng => Some (VDict (<["lng" := lng]> {["lat" := lat]}))
        | _, _ => None
        end
    | Raised _ => None
    end
  else if bool_decide (k ∈ fields self) then
    match read_selector inst k with Ok v => Some v | Raised _ => None end
  else if bool_decide (k = "objectID") then Some (pk inst)
  else None.

(** The documents of the records of a stream that build. *)
Definition built (self : AlgoliaIndex) (l : list instance)
    : list (gmap string value) :=
  omap (λ i, match __build_object self i with
             | Ok d => Some d
             | Raised _ => None
             end) l.

(** A record without a title, and a collection that holds it. *)
Definition untitled (n : Z) : instance :=
  {| pk := VInt n; attrs := {["id" := Data (VInt n)]} |}.

Definition Drafts : Model :=
  {| __name__ := "Post";
     get_all_field_names := ["id"; "title"];
     class_attrs := ∅;
     blank := post 0 "";
     objects_all := [post 7 "x"; post 8 "y"; post 9 "z"; untitled 10;
                     post 11 "w"] |}.

(** A client that answers every call with an empty dictionary, and one
    whose answers hold no [taskID]. *)
Definition empty_client : client :=
  {| respond := λ _ _, Ok (VDict ∅) |}.

Definition untracked_client : client :=
  {| respond := λ _ _, Ok (VDict {["objectIDs" := VList []]}) |}.

(** What the constructor asks of a declared field: an attribute of that
    name on a fresh record, callable or named like a field of the
    collection. *)
Definition field_accepted (m : Model) (f : string) : Prop :=
  ∃ a, attrs (blank m) !! f = Some a ∧
       (callable a = true ∨ f ∈ get_all_field_names m).

(** What the constructor asks of a declared geo-selector: an attribute
    of the class that is a tuple or callable. *)
Definition geo_accepted (m : Model) (geo : option string) : Prop :=
  truthy_name geo = true →
  ∃ a, class_attrs m !! default "" geo = Some a ∧
       (is_tuple a = true ∨ callable a = true).

(** What [reindex_all] does once the shadow index is cleared. *)
Definition reindex_after_clear (self : AlgoliaIndex) (batch_size : Z)
    : M nat :=
  '(batch, counts, result) ←
    reindex_all_loop self batch_size (objects_all (model self)) [] 0%nat VNone;
  result ← (if (0 <? length batch)%nat then
              invoke (__client self) (SaveObjects (__tmp_index self) batch)
            else mret result);
  (if truthy result then
     task ← lift (getitem_key result "taskID");
     invoke (__client self) (WaitTask (__tmp_index self) task) ;;
     invoke (__client self)
       (MoveIndex (index_name self +:+ "_tmp") (index_name self)) ;;
     mret ()
   else mret ()) ;;
  mret counts.
(** ** Running computations *)

Lemma bind_run {A B} (m : M A) (f : A → M B) h :
  (m ≫= f) h =
  match m h with
  | (Ok a, t1) => let '(r, t2) := f a (h ++ t1) in (r, t1 ++ t2)
  | (Raised e, t1) => (Raised e, t1)
  end.
Proof. reflexivity. Qed.

Lemma bind_run_Ok {A B} (m : M A) (f : A → M B) h a t1 r t2 :
  m h = (Ok a, t1) → f a (h ++ t1) = (r, t2) → (m ≫= f) h = (r, t1 ++ t2).
Proof. intros Hm Hf. by rewrite bind_run, Hm, Hf. Qed.

Lemma bind_run_Raised {A B} (m : M A) (f : A → M B) h e t1 :
  m h = (Raised e, t1) → (m ≫= f) h = (Raised e, t1).
Proof. intros Hm. by rewrite bind_run, Hm. Qed.

Lemma emits_ret {A} P (a : A) : emits P (mret a).
Proof. intros h. constructor. Qed.

Lemma emits_lift {A} P (r : result A) : emits P (lift r).
Proof. intros h. constructor. Qed.

Lemma emits_invoke P cl c : (∀ r, P (c, r)) → emits P (invoke cl c).
Proof. intros H h. simpl. by repeat constructor. Qed.

Lemma emits_bind {A B} P (m : M A) (f : A → M B) :
  emits P m → (∀ a, emits P (f a)) → emits P (m ≫= f).
Proof.
  intros Hm Hf h. rewrite bind_run. specialize (Hm h).
  destruct (m h) as [[a|e] t1]; simpl in *; [|done].
  specialize (Hf a (h ++ t1)). destruct (f a (h ++ t1)) as [r t2]; simpl in *.
  by apply Forall_app.
Qed.

Lemma emits_if {A} P (b : bool) (m1 m2 : M A) :
  emits P m1 → emits P m2 → emits P (if b then m1 else m2).
Proof. by destruct b. Qed.

Create HintDb emits.
#[local] Hint Resolve emits_ret emits_lift emits_bind emits_if : emits.

Section EngineFacts.
Context {index_state : Type}.
Variable effect : call → result value → option index_state → option index_state.
Variable move_effect :
  string → string → result value →
  gmap string index_state → gmap string index_state.

Lemma engine_step_frame e ev i j :
  on_index i ev → i ≠ j → engine_step effect move_effect e ev !! j = e !! j.
Proof.
  unfold on_index, engine_step. intros Ht Hij.
  destruct ev as [c o]; simpl in *.
  destruct c; simpl in *; try discriminate;
    injection Ht as ->; by rewrite lookup_partial_alter_ne.
Qed.

Lemma engine_run_frame t : ∀ e i j,
  Forall (on_index i) t → i ≠ j → engine_run effect move_effect e t !! j = e !! j.
Proof.
  induction t as [|ev t IH]; intros e i j Hall Hij; [done|].
  inversion Hall as [|? ? Hev Ht]; subst. simpl.
  rewrite (IH _ i j Ht Hij). by apply (engine_step_frame _ _ i).
Qed.
End EngineFacts.

(** ** The loops of the two rebuilds are the Batch Uploader *)

Lemma reindex_all_loop_upload self B l : ∀ batch counts result h,
  reindex_all_loop self B l batch counts result h =
  upload_loop (__client self) (__build_object self) (__tmp_index self)
    B l batch counts result h.
Proof.
  induction l as [|inst rest IH]; intros batch counts result h; [reflexivity|].
  simpl. rewrite !bind_run.
  destruct (lift (__build_object self inst) h) as [[obj|e] t1]; [|done].
  rewrite !bind_run.
  destruct ((if Z.of_nat (length (batch ++ [obj])) >=? B
             then r ← invoke (__client self)
                         (SaveObjects (__tmp_index self) (batch ++ [obj]));
                  mret ([], r)
             else mret (batch ++ [obj], result)) (h ++ t1))
    as [[[b' r']|e] t2]; [|done].
  by rewrite IH.
Qed.

Lemma index_all_loop_upload self B l : ∀ batch counts result h,
  index_all_loop self B l batch counts h =
  let '(r, t) :=
    upload_loop (__client self) (__build_object self) (__index self)
      B l batch counts result h in
  (forget_result r, t).
Proof.
  induction l as [|inst rest IH]; intros batch counts result h; [reflexivity|].
  simpl. rewrite !bind_run.
  destruct (lift (__build_object self inst) h) as [[obj|e] t1]; [|done].
  rewrite !bind_run.
  destruct (Z.of_nat (length (batch ++ [obj])) >=? B).
  - rewrite !bind_run.
    destruct (invoke (__client self)
                (SaveObjects (__index self) (batch ++ [obj])) (h ++ t1))
      as [[r|e] t2]; [|done].
    simpl. rewrite (IH [] (S counts) r).
    by destruct (upload_loop _ _ _ _ _ _ _ _ _) as [? ?].
  - simpl. rewrite (IH (batch ++ [obj]) (S counts) result).
    by destruct (upload_loop _ _ _ _ _ _ _ _ _) as [? ?].
Qed.

(** Whatever the client answers, the loop only flushes to its target. *)
Lemma upload_loop_emits cl build idx B l : ∀ batch counts result,
  emits (λ ev, ∃ b, ev.1 = SaveObjects idx b)
    (upload_loop cl build idx B l batch counts result).
Proof.
  induction l as [|inst rest IH]; intros batch counts result; simpl.
  - apply emits_ret.
  - apply emits_bind; [apply emits_lift|]. intros obj.
    apply emits_bind.
    + apply emits_if; [|apply emits_ret].
      apply emits_bind; [|intros; apply emits_ret].
      apply emits_invoke. intros r. by eexists.
    + intros [b r]. apply IH.
Qed.

Lemma last_answer_nil d : last_answer [] d = d.
Proof. done. Qed.

Lemma last_answer_cons_Ok c r t d :
  last_answer ((c, Ok r) :: t) d = last_answer t r.
Proof. done. Qed.

Lemma last_answer_snoc_Ok t c r d : last_answer (t ++ [(c, Ok r)]) d = r.
Proof. unfold last_answer. by rewrite foldl_snoc. Qed.

Lemma flushes_app t1 t2 : flushes (t1 ++ t2) = flushes t1 ++ flushes t2.
Proof. apply omap_app. Qed.

Lemma count_app p t1 t2 : count p (t1 ++ t2) = (count p t1 + count p t2)%nat.
Proof. unfold count. by rewrite filter_app, length_app. Qed.

Lemma Forall2_build_exists (build : instance → result doc) l :
  Forall (λ i, is_Ok (build i)) l → ∃ ds, Forall2 (λ i d, build i = Ok d) l ds.
Proof.
  induction 1 as [|i l Hi _ [ds IH]]; [by exists []|].
  destruct (build i) as [d|] eqn:E; [|done].
  exists (d :: ds). by constructor.
Qed.

(** When no call raises and every document builds, the loop runs to its
    end: it counts every record, flushes to its target only, keeps the
    answer to its last flush, and loses no document.  Started below the
    batch size, it flushes batches of exactly that size and ends below
    it. *)
Lemma upload_loop_spec cl build idx B :
  never_raises cl → ∀ l ds, Forall2 (λ i d, build i = Ok d) l ds →
  ∀ batch counts result h, ∃ batch' t,
    upload_loop cl build idx B l batch counts result h =
      (Ok (batch', (counts + length l)%nat, last_answer t result), t) ∧
    Forall (flush_to idx) t ∧
    concat (flushes t) ++ batch' = batch ++ ds ∧
    (Z.of_nat (length batch) < B →
     Z.of_nat (length batch') < B ∧
     Forall (λ b : list doc, Z.of_nat (length b) = B) (flushes t)).
Proof.
  intros Hcl l ds Hb.
  induction Hb as [|inst d rest ds Hd _ IH]; intros batch counts result h.
  - exists batch, []. simpl. rewrite Nat.add_0_r, app_nil_r.
    repeat split; auto.
  - simpl. rewrite bind_run. unfold lift at 1. rewrite Hd.
    rewrite bind_run.
    destruct (Z.of_nat (length (batch ++ [d])) >=? B) eqn:Hfull.
    + rewrite bind_run. unfold invoke at 1.
      pose proof (Hcl (h ++ []) (SaveObjects idx (batch ++ [d]))) as Hr.
      destruct (respond cl (h ++ []) (SaveObjects idx (batch ++ [d])))
        as [r|e]; [|done].
      simpl.
      match goal with
      | |- context [upload_loop _ _ _ _ _ _ _ _ ?h'] =>
          destruct (IH [] (S counts) r h')
            as (batch' & t & Hrun & Hfl & Hdocs & Hsz)
      end.
      rewrite Hrun. exists batch', ((SaveObjects idx (batch ++ [d]), Ok r) :: t).
      simpl in *. split_and!.
      * by rewrite Nat.add_succ_r.
      * constructor; [by eexists _, _|done].
      * rewrite <- !app_assoc. simpl. by rewrite Hdocs.
      * intros Hlt. apply Z.geb_le in Hfull.
        rewrite length_app in Hfull. simpl in Hfull.
        destruct Hsz as [Hb' Hall]; [lia|]. split; [done|].
        constructor; [|done]. rewrite length_app. simpl. lia.
    + simpl.
      match goal with
      | |- context [upload_loop _ _ _ _ _ _ _ _ ?h'] =>
          destruct (IH (batch ++ [d]) (S counts) result h')
            as (batch' & t & Hrun & Hfl & Hdocs & Hsz)
      end.
      rewrite Hrun. exists batch', t. simpl in *. split_and!.
      * by rewrite Nat.add_succ_r.
      * done.
      * by rewrite Hdocs, <- app_assoc.
      * intros Hlt. rewrite Z.geb_leb in Hfull. apply Z.leb_gt in Hfull.
        rewrite length_app in Hfull, Hsz. simpl in Hfull, Hsz.
        apply Hsz. lia.
Qed.

(** ** Strings *)

Lemma append_cons c (s1 s2 : string) :
  String c s1 +:+ s2 = String c (s1 +:+ s2).
Proof. reflexivity. Qed.

Lemma length_append (s1 s2 : string) :
  String.length (s1 +:+ s2) = (String.length s1 + String.length s2)%nat.
Proof.
  induction s1 as [|c s1 IH]; [done|].
  rewrite append_cons. simpl. by rewrite IH.
Qed.

Lemma append_assoc (s1 s2 s3 : string) :
  (s1 +:+ s2) +:+ s3 = s1 +:+ (s2 +:+ s3).
Proof.
  induction s1 as [|c s1 IH]; [done|]. rewrite !append_cons. by rewrite IH.
Qed.

Lemma append_tmp_neq (s : string) : s +:+ "_tmp" ≠ s.
Proof.
  intros H. apply (f_equal String.length) in H.
  rewrite length_append in H. simpl in H. lia.
Qed.

Lemma append_nonempty_r (s1 s2 : string) : s2 ≠ "" → s1 +:+ s2 ≠ "".
Proof.
  intros H2 H. apply (f_equal String.length) in H.
  rewrite length_append in H. destruct s2; [done|]. simpl in H. lia.
Qed.

Lemma append_nonempty_l (s1 s2 : string) : s1 ≠ "" → s1 +:+ s2 ≠ "".
Proof.
  intros H1 H. destruct s1; [done|]. rewrite append_cons in H. discriminate.
Qed.

Lemma truthy_name_Some o :
  truthy_name o = true → ∃ s, o = Some s ∧ s ≠ "".
Proof.
  destruct o as [s|]; simpl; [|done]. intros H. exists s. split; [done|].
  apply negb_true_iff, String.eqb_neq in H. done.
Qed.

(** ** The constructor *)

Lemma set_index_run cfg m declared h :
  let n := resolved_index_name cfg m declared in
  __set_index cfg m declared h =
  (Ok (n, n, n +:+ "_tmp"),
   [(InitIndex n, Ok (VObject n));
    (InitIndex (n +:+ "_tmp"), Ok (VObject (n +:+ "_tmp")))]).
Proof. reflexivity. Qed.

(** What [__init__] does, step by step. *)
Lemma init_run cfg d m cl h :
  let n := resolved_index_name cfg m (decl_index_name d) in
  let fs := normalize_fields (decl_fields d) in
  __init__ cfg d m cl h =
  (_ ← check_fields (blank m) (get_all_field_names m) fs;
   _ ← check_geo_field m (decl_geo_field d);
   fs' ← default_fields (get_all_field_names m) fs;
   Ok {| model := m; fields := fs'; geo_field := decl_geo_field d;
         index_name := n; settings := decl_settings d;
         __client := cl; __index := n; __tmp_index := n +:+ "_tmp" |},
   [(InitIndex n, Ok (VObject n));
    (InitIndex (n +:+ "_tmp"), Ok (VObject (n +:+ "_tmp")))]).
Proof.
  intros n fs. unfold __init__. rewrite bind_run, set_index_run. simpl.
  fold n fs.
  destruct (check_fields (blank m) (get_all_field_names m) fs) as [[]|e];
    simpl; [|done].
  destruct (check_geo_field m (decl_geo_field d)) as [[]|e]; simpl; [|done].
  destruct (default_fields (get_all_field_names m) fs) as [fs'|e]; simpl; done.
Qed.

(** A binding is [bound] when its handles are those of its names. *)
Lemma init_bound cfg d m cl h self t :
  __init__ cfg d m cl h = (Ok self, t) →
  bound self ∧ __client self = cl ∧ model self = m ∧
  settings self = decl_settings d ∧ geo_field self = decl_geo_field d.
Proof.
  rewrite init_run. intros H. injection H as H _.
  destruct (check_fields _ _ _) as [[]|]; simpl in H; [|done].
  destruct (check_geo_field _ _) as [[]|]; simpl in H; [|done].
  destruct (default_fields _ _) as [fs'|]; simpl in H; [|done].
  injection H as <-. done.
Qed.

(** Construction reaches the engine with no call at all. *)
Lemma init_no_remote_call cfg d m cl h :
  Forall (λ ev : event, is_remote ev.1 = false) (__init__ cfg d m cl h).2.
Proof. rewrite init_run. simpl. by repeat constructor. Qed.

(** ** Name resolution *)

Lemma resolved_index_name_spec cfg m declared :
  let base := if truthy_name declared then default "" declared
              else __name__ m in
  resolved_index_name cfg m declared =
  (resolve_names (configured (ALGOLIA_INDEX_PREFIX cfg))
     (configured (ALGOLIA_INDEX_SUFFIX cfg)) base).1.
Proof.
  intros base. unfold resolved_index_name, resolve_names, configured.
  fold base. simpl.
  destruct (truthy_name (ALGOLIA_INDEX_PREFIX cfg)) eqn:Hp;
    destruct (truthy_name (ALGOLIA_INDEX_SUFFIX cfg)) eqn:Hs;
    try (apply truthy_name_Some in Hp as (p & -> & _));
    try (apply truthy_name_Some in Hs as (s & -> & _));
    simpl; by rewrite ?append_assoc.
Qed.

Lemma resolved_index_name_nonempty cfg m declared :
  __name__ m ≠ "" → resolved_index_name cfg m declared ≠ "".
Proof.
  intros Hname. unfold resolved_index_name.
  set (base := if truthy_name declared then default "" declared
               else __name__ m).
  assert (Hbase : base ≠ "").
  { subst base. destruct (truthy_name declared) eqn:Hd; [|done].
    by apply truthy_name_Some in Hd as (s & -> & ?). }
  set (wrapped := if truthy_name (ALGOLIA_INDEX_PREFIX cfg)
                  then _ else base).
  assert (Hwrapped : wrapped ≠ "").
  { subst wrapped. destruct (truthy_name (ALGOLIA_INDEX_PREFIX cfg));
      [by apply append_nonempty_r|done]. }
  destruct (truthy_name (ALGOLIA_INDEX_SUFFIX cfg));
    [by apply append_nonempty_l|done].
Qed.

(** C9. Name resolution: the primary name is the declared name or, by
    default, the type name of the collection, wrapped as
    [prefix + "_" + name] and [name + "_" + suffix] where a prefix or a
    suffix is configured; the shadow name is the primary name followed by
    [_tmp]; the primary name is not empty (the type name of a class is
    not).  The handles and the name kept by a constructed binding are
    these. *)
Theorem set_index_resolves_names cfg d m cl h :
  __name__ m ≠ "" →
  let declared := decl_index_name d in
  let base := if truthy_name declared then default "" declared
              else __name__ m in
  let names := resolve_names (configured (ALGOLIA_INDEX_PREFIX cfg))
                 (configured (ALGOLIA_INDEX_SUFFIX cfg)) base in
  (declared = None → base = __name__ m) ∧
  (__set_index cfg m declared h).1 = Ok (names.1, names.1, names.2) ∧
  names.2 = names.1 +:+ "_tmp" ∧
  names.1 ≠ "" ∧
  (∀ self t, __init__ cfg d m cl h = (Ok self, t) →
     index_name self = names.1 ∧ __index self = names.1 ∧
     __tmp_index self = names.2).
Proof.
  intros Hname declared base names.
  assert (Hspec : resolved_index_name cfg m declared = names.1)
    by apply resolved_index_name_spec.
  split_and!.
  - by intros ->.
  - rewrite set_index_run. simpl. by rewrite Hspec.
  - done.
  - rewrite <- Hspec. by apply resolved_index_name_nonempty.
  - intros self t. rewrite init_run. intros H. injection H as H _.
    destruct (check_fields _ _ _) as [[]|]; simpl in H; [|done].
    destruct (check_geo_field _ _) as [[]|]; simpl in H; [|done].
    destruct (default_fields _ _) as [fs'|]; simpl in H; [|done].
    injection H as <-. simpl. fold declared. by rewrite Hspec.
Qed.

Lemma set_index_resolves_names_witness :
  __name__ Post ≠ "" ∧
  (__set_index wrapped_cfg Post None []).1 =
    Ok ("prod_Post_v1", "prod_Post_v1", "prod_Post_v1_tmp").
Proof.
  assert (H : __name__ Post ≠ "") by (simpl; discriminate).
  split; [exact H|].
  exact (proj1 (proj2
    (set_index_resolves_names wrapped_cfg title_loc Post task_client [] H))).
Defined.

(** ** Validation of the declared fields *)

(** A declared name that is not a field raises, be it for want of the
    attribute or for an attribute that cannot be called. *)
Lemma check_fields_offending inst all fs f :
  f ∈ fs → f ∉ all →
  (attrs inst !! f = None ∨ (∃ v, attrs inst !! f = Some (Data v))) →
  is_Raised (check_fields inst all fs).
Proof.
  intros Hin Hall Hattr.
  induction fs as [|g fs IH]; [by apply elem_of_nil in Hin|].
  simpl. unfold getattr.
  destruct (decide (g = f)) as [->|Hne].
  - destruct Hattr as [->|[v ->]]; simpl; [done|].
    rewrite bool_decide_eq_false_2; done.
  - apply elem_of_cons in Hin as [->|Hin]; [done|].
    destruct (attrs inst !! g) as [a|]; simpl; [|done].
    destruct (callable a); [by apply IH|].
    destruct (bool_decide (g ∈ all)); simpl; [by apply IH|done].
Qed.

(** The error the constructor means to raise is raised for the first
    offending name whose attribute exists. *)
Lemma check_fields_not_a_field inst all pre f v post :
  Forall (λ g, ∃ a, attrs inst !! g = Some a ∧
               (callable a = true ∨ g ∈ all)) pre →
  attrs inst !! f = Some (Data v) → f ∉ all →
  check_fields inst all (pre ++ f :: post) =
    Raised (AlgoliaIndexError (NotAField f)).
Proof.
  intros Hpre Hf Hall.
  induction Hpre as [|g pre (a & Ha & Hok) _ IH]; simpl; unfold getattr.
  - rewrite Hf. simpl. by rewrite bool_decide_eq_false_2.
  - rewrite Ha. simpl. destruct (callable a); [done|].
    destruct Hok as [?|Hin]; [done|]. by rewrite bool_decide_eq_true_2.
Qed.

(** C7, evaluated on the code: a declared name with no attribute behind
    it, and which is no field, makes [getattr] raise [AttributeError]
    before the membership test is reached; the [AlgoliaIndexError] of the
    constructor is not raised.  No call has reached the engine. *)
Theorem init_unknown_field_attribute_error cl h :
  ("nope" ∉ get_all_field_names Post) ∧
  attrs (blank Post) !! "nope" = None ∧
  (__init__ plain_cfg nope_decl Post cl h).1 = Raised (AttributeError "nope") ∧
  Forall (λ ev : event, is_remote ev.1 = false)
    (__init__ plain_cfg nope_decl Post cl h).2.
Proof.
  split_and!.
  - simpl. rewrite !elem_of_cons, elem_of_nil. intros [?|[?|[]]]; discriminate.
  - reflexivity.
  - rewrite init_run. reflexivity.
  - apply init_no_remote_call.
Qed.

(** An attribute that exists, is no field and cannot be called does get
    the error of the constructor. *)
Lemma init_pk_not_a_field cl h :
  (__init__ plain_cfg pk_decl Post cl h).1 =
    Raised (AlgoliaIndexError (NotAField "pk")).
Proof. rewrite init_run. reflexivity. Qed.

(** ** The default field set *)

Lemma list_remove_raises x l e : list_remove x l = Raised e → e = ValueError.
Proof.
  induction l as [|y l IH]; simpl; [congruence|].
  destruct (decide (x = y)); [done|].
  destruct (list_remove x l) as [r|e']; simpl; [done|].
  intros [= <-]. by apply IH.
Qed.

Lemma default_fields_raises all fs e :
  default_fields all fs = Raised e → e = ValueError.
Proof. destruct fs; simpl; [apply list_remove_raises|done]. Qed.

(** ** Validation of the geo-selector *)

Lemma check_geo_field_run m g a :
  g ≠ "" → class_attrs m !! g = Some a →
  check_geo_field m (Some g) =
    if is_tuple a || callable a then Ok ()
    else Raised (AlgoliaIndexError BadGeoField).
Proof.
  intros Hg Ha. unfold check_geo_field, truthy_name.
  apply String.eqb_neq in Hg. rewrite Hg. simpl. unfold getattr. rewrite Ha.
  simpl. by destruct (is_tuple a || callable a).
Qed.

(** C8, as the code has it: a geo-selector that resolves on the class to
    something that is neither a tuple nor callable raises
    [AlgoliaIndexError]; a tuple, whatever its length, and a callable,
    whatever it returns, pass the check. *)
Theorem init_geo_field_checked cfg d m cl h g a :
  decl_geo_field d = Some g → g ≠ "" → class_attrs m !! g = Some a →
  is_Ok (check_fields (blank m) (get_all_field_names m)
           (normalize_fields (decl_fields d))) →
  (is_tuple a = false → callable a = false →
   (__init__ cfg d m cl h).1 = Raised (AlgoliaIndexError BadGeoField)) ∧
  (∀ l, a = Data (VTuple l) → check_geo_field m (Some g) = Ok () ∧
     (__init__ cfg d m cl h).1 ≠ Raised (AlgoliaIndexError BadGeoField)) ∧
  (callable a = true → check_geo_field m (Some g) = Ok () ∧
     (__init__ cfg d m cl h).1 ≠ Raised (AlgoliaIndexError BadGeoField)).
Proof.
  intros Hd Hg Ha Hfields.
  pose proof (check_geo_field_run m g a Hg Ha) as Hgeo.
  rewrite init_run. simpl. rewrite Hd.
  destruct (check_fields _ _ _) as [[]|]; [|done]. simpl.
  rewrite Hgeo. clear Hgeo.
  split_and!.
  - intros -> ->. done.
  - intros l ->. simpl. split; [done|].
    destruct (default_fields _ _) as [fs'|e] eqn:E; simpl; [done|].
    apply default_fields_raises in E as ->. done.
  - intros Hc. rewrite Hc, orb_true_r. simpl. split; [done|].
    destruct (default_fields _ _) as [fs'|e] eqn:E; simpl; [done|].
    apply default_fields_raises in E as ->. done.
Qed.

(** C8, as first stated, fails: a geo-selector that is a tuple of three
    passes the check and the binding is built. *)
Lemma init_accepts_three_tuple :
  class_attrs Post !! "loc3" = Some (Data (VTuple [VFloat 1; VFloat 2; VFloat 3])) ∧
  __init__ plain_cfg loc3_decl Post task_client [] =
    (Ok (post_index plain_cfg loc3_decl Post task_client ["title"]),
     [(InitIndex "Post", Ok (VObject "Post"));
      (InitIndex "Post_tmp", Ok (VObject "Post_tmp"))]).
Proof. split; [reflexivity|]. rewrite init_run. reflexivity. Qed.

Lemma init_geo_field_checked_witness :
  (__init__ plain_cfg
     {| decl_fields := FieldsSeq ["title"]; decl_geo_field := Some "slug";
        decl_index_name := None; decl_settings := ∅ |}
     {| __name__ := "Post"; get_all_field_names := ["id"; "title"];
        class_attrs := {["slug" := Data (VStr "not a pair")]};
        blank := post 0 ""; objects_all := [] |}
     none_client []).1 = Raised (AlgoliaIndexError BadGeoField).
Proof.
  refine (proj1 (init_geo_field_checked plain_cfg _ _ none_client []
                   "slug" (Data (VStr "not a pair")) _ _ _ _) _ _);
    try reflexivity; try discriminate.
Defined.

(** ** The default field set, continued *)

Lemma list_remove_spec x l :
  x ∈ l →
  ∃ l1 l2, l = l1 ++ x :: l2 ∧ (x ∉ l1) ∧ list_remove x l = Ok (l1 ++ l2).
Proof.
  induction l as [|y l IH]; intros Hin; [by apply elem_of_nil in Hin|].
  simpl. destruct (decide (x = y)) as [->|Hne].
  - exists [], l. split_and!; [done| |done]. apply not_elem_of_nil.
  - apply elem_of_cons in Hin as [?|Hin]; [done|].
    destruct (IH Hin) as (l1 & l2 & -> & Hl1 & ->).
    exists (y :: l1), l2. split_and!; [done| |done].
    rewrite elem_of_cons. tauto.
Qed.

(** With no field declared and a field named [id] among the (distinct)
    field names of the collection, the field set becomes every field
    name but [id]. *)
Lemma default_fields_all_but_id all :
  NoDup all → "id" ∈ all →
  ∃ fs, default_fields all [] = Ok fs ∧ ∀ f, f ∈ fs ↔ f ∈ all ∧ f ≠ "id".
Proof.
  intros Hnd Hin. simpl.
  destruct (list_remove_spec "id" all Hin) as (l1 & l2 & -> & Hl1 & ->).
  exists (l1 ++ l2). split; [done|]. intros f.
  apply NoDup_app in Hnd as (_ & Hdisj & Hnd2).
  apply NoDup_cons in Hnd2 as [Hl2 _].
  rewrite !elem_of_app, elem_of_cons. split.
  - intros [H1|H2]; (split; [tauto|]); intros ->; done.
  - intros [[H1|[->|H2]] Hne]; tauto.
Qed.

(** A declared field set is kept as declared; a single string becomes
    the one-element sequence of that string. *)
Lemma init_fields_kept cfg d m cl h self t :
  __init__ cfg d m cl h = (Ok self, t) →
  normalize_fields (decl_fields d) ≠ [] →
  fields self = normalize_fields (decl_fields d) ∧
  (∀ s, decl_fields d = FieldsStr s → fields self = [s]).
Proof.
  rewrite init_run. intros H Hne. injection H as H _.
  destruct (check_fields _ _ _) as [[]|]; simpl in H; [|done].
  destruct (check_geo_field _ _) as [[]|]; simpl in H; [|done].
  destruct (normalize_fields (decl_fields d)) as [|f fs] eqn:E; [done|].
  simpl in H. injection H as <-. simpl. split; [done|].
  intros s Hs. rewrite Hs in E. simpl in E. done.
Qed.

(** C10, evaluated on the code: with no field declared over a collection
    that has no field named [id], [remove('id')] raises [ValueError] and
    no binding is built. *)
Theorem init_default_fields_without_id cl h :
  ("id" ∉ get_all_field_names Country) ∧
  normalize_fields (decl_fields bare_decl) = [] ∧
  (__init__ plain_cfg bare_decl Country cl h).1 = Raised ValueError.
Proof.
  split_and!.
  - simpl. rewrite !elem_of_cons, elem_of_nil. intros [?|[?|[]]]; discriminate.
  - reflexivity.
  - rewrite init_run. reflexivity.
Qed.

(** Over a collection that has a field named [id] the default is every
    other field, and a lone string is taken as one name. *)
Lemma init_default_fields_examples cl h :
  (fields <$> (__init__ plain_cfg bare_decl Post cl h).1 : result _) =
    Ok ["title"] ∧
  (fields <$> (__init__ plain_cfg str_decl Post cl h).1 : result _) =
    Ok ["title"].
Proof. rewrite !init_run. split; reflexivity. Qed.

(** ** Building a document *)

Lemma read_selector_getattr inst name :
  (a ← getattr (attrs inst) name; call_if_callable a) = read_selector inst name.
Proof.
  unfold getattr, read_selector.
  by destruct (attrs inst !! name) as [[v|r]|].
Qed.

Lemma build_fields_spec inst fs : ∀ tmp : doc,
  (∀ f, f ∈ fs → is_Ok (read_selector inst f)) →
  ∃ d : doc, build_fields inst fs tmp = Ok d ∧
    dom d = dom tmp ∪ list_to_set fs ∧
    (∀ f v, f ∈ fs → read_selector inst f = Ok v → d !! f = Some v) ∧
    (∀ k, k ∉ fs → d !! k = tmp !! k).
Proof.
  induction fs as [|f fs IH]; intros tmp Hok; simpl.
  - exists tmp. split_and!; [done|set_solver| |done].
    intros f v Hin. by apply elem_of_nil in Hin.
  - pose proof (read_selector_getattr inst f) as Hsel. simpl in Hsel.
    assert (Hf : is_Ok (read_selector inst f)) by (apply Hok; left).
    destruct (read_selector inst f) as [v|] eqn:Ev; [|done].
    destruct (getattr (attrs inst) f) as [a|]; simpl in *; [|done].
    rewrite Hsel. simpl.
    destruct (IH (<[f:=v]> tmp)) as (d & Hrun & Hdom & Hval & Hrest).
    { intros g Hg. apply Hok. by right. }
    exists d. split_and!; [done| | |].
    + rewrite Hdom, dom_insert_L. set_solver.
    + intros g w Hg Hw. destruct (decide (g ∈ fs)) as [Hin|Hnin].
      * by apply Hval.
      * apply elem_of_cons in Hg as [->|?]; [|done].
        rewrite (Hrest _ Hnin), lookup_insert_eq. congruence.
    + intros k Hk. apply not_elem_of_cons in Hk as [Hne Hk].
      by rewrite (Hrest _ Hk), lookup_insert_ne.
Qed.


(** The example of the specification. *)
Lemma build_object_example :
  __build_object (post_index plain_cfg title_loc Post task_client ["title"])
    (post 7 "x") =
  Ok (<["objectID" := VInt 7]>
      (<["title" := VStr "x"]>
      (<["_geoloc" :=
           VDict (<["lat" := VFloat 1]> (<["lng" := VFloat 2]> ∅))]> ∅))).
Proof. vm_compute. reflexivity. Qed.



(** ** Counting batches *)

Lemma sum_list_lengths {A} (ls : list (list A)) :
  sum_list (length <$> ls) = length (concat ls).
Proof.
  induction ls as [|l ls IH]; [done|]. rewrite fmap_cons.
  change (sum_list (length l :: (length <$> ls)))
    with (length l + sum_list (length <$> ls))%nat.
  rewrite IH. simpl. by rewrite length_app.
Qed.

Lemma length_concat_full {A} (ls : list (list A)) (B : Z) :
  Forall (λ b, Z.of_nat (length b) = B) ls →
  Z.of_nat (length (concat ls)) = Z.of_nat (length ls) * B.
Proof.
  induction 1 as [|l ls Hl _ IH]; simpl; [lia|].
  rewrite length_app. lia.
Qed.

Lemma ceil_div_full k B : 1 ≤ B → ceil_div (k * B) B = k.
Proof.
  intros HB. unfold ceil_div. symmetry.
  apply (Z.div_unique_pos _ _ _ (B - 1)); lia.
Qed.

Lemma ceil_div_partial k r B :
  1 ≤ r < B → ceil_div (k * B + r) B = k + 1.
Proof.
  intros Hr. unfold ceil_div. symmetry.
  apply (Z.div_unique_pos _ _ _ (r - 1)); lia.
Qed.

(** Full batches followed by the remainder, when there is one, cut the
    documents as [flushed_in_batches] says. *)
Lemma batches_spec (B : Z) (pre loop fin : list event)
    (batch' ds : list (gmap string value)) :
  1 ≤ B → flushes pre = [] →
  Forall (λ b : list (gmap string value), Z.of_nat (length b) = B) (flushes loop) →
  Z.of_nat (length batch') < B →
  concat (flushes loop) ++ batch' = ds →
  flushes fin = (if (0 <? length batch')%nat then [batch'] else []) →
  flushed_in_batches (length ds) B (pre ++ loop ++ fin) ∧
  concat (flushes (pre ++ loop ++ fin)) = ds.
Proof.
  intros HB Hpre Hfull Hlt Hds Hfin. unfold flushed_in_batches.
  rewrite !flushes_app, Hpre, Hfin. simpl.
  pose proof (length_concat_full _ _ Hfull) as Hlen.
  assert (HN : Z.of_nat (length ds) =
               Z.of_nat (length (flushes loop)) * B + Z.of_nat (length batch')).
  { rewrite <- Hds, length_app. lia. }
  destruct batch' as [|d0 rest]; simpl in *.
  - rewrite !app_nil_r in *. split; [|done].
    split_and!.
    + rewrite HN, Z.add_0_r. by rewrite ceil_div_full.
    + by rewrite sum_list_lengths, Hds.
    + intros i b Hb _. by eapply (proj1 (Forall_lookup _ _) Hfull).
    + intros H0. rewrite H0 in HN. simpl in HN.
      destruct (flushes loop) as [|b0 fl]; [done|]. simpl in HN. nia.
  - split; [|by rewrite concat_app; simpl; rewrite app_nil_r].
    split_and!.
    + rewrite length_app, HN. simpl.
      rewrite ceil_div_partial by lia. lia.
    + rewrite sum_list_lengths, concat_app. simpl.
      by rewrite app_nil_r, Hds.
    + intros i b Hb Hi. rewrite length_app in Hi. simpl in Hi.
      apply lookup_app_Some in Hb as [Hb|[Hge _]]; [|lia].
      by eapply (proj1 (Forall_lookup _ _) Hfull).
    + intros H0. rewrite H0 in HN. simpl in HN. lia.
Qed.

Lemma flushes_not_flush (t : list event) :
  Forall (λ ev : event, is_flush ev.1 = false) t → flushes t = [].
Proof.
  induction 1 as [|[c r] t Hc _ IH]; [done|].
  destruct c; simpl in Hc; try discriminate; exact IH.
Qed.

(** ** Laws of the monad, call by call *)

Lemma invoke_run cl c h : invoke cl c h = (respond cl h c, [(c, respond cl h c)]).
Proof. reflexivity. Qed.

Lemma invoke_unit_run cl c h :
  (invoke cl c ;; mret ()) h =
  (match respond cl h c with Ok _ => Ok () | Raised e => Raised e end,
   [(c, respond cl h c)]).
Proof. rewrite bind_run, invoke_run. by destruct (respond cl h c). Qed.

Lemma bind_ext {A B} (m : M A) (f g : A → M B) h :
  (∀ a h', f a h' = g a h') → (m ≫= f) h = (m ≫= g) h.
Proof.
  intros Hfg. rewrite !bind_run. destruct (m h) as [[a|e] t1]; [|done].
  by rewrite Hfg.
Qed.

Lemma bind_assoc {A B C} (m : M A) (f : A → M B) (g : B → M C) h :
  ((m ≫= f) ≫= g) h = (m ≫= (λ a, f a ≫= g)) h.
Proof.
  rewrite !bind_run. destruct (m h) as [[a|e] t1]; [|done].
  rewrite bind_run. destruct (f a (h ++ t1)) as [[b|e] t2]; [|done].
  rewrite <- app_assoc. destruct (g b (h ++ t1 ++ t2)) as [r t3].
  by rewrite app_assoc.
Qed.

Lemma bind_ret_r {A B} (m : M A) (k : A → B) (f : B → M nat) h :
  ((a ← m; mret (k a)) ≫= f) h = (a ← m; f (k a)) h.
Proof.
  rewrite bind_assoc. apply bind_ext. intros a h'.
  rewrite bind_run. simpl. rewrite app_nil_r. by destruct (f (k a) h').
Qed.

(** ** The in-place rebuild *)

Lemma index_all_run self B h :
  index_all self B h =
  (set_settings self ;; clear_index self ;; index_upload self B) h.
Proof. reflexivity. Qed.

Lemma index_upload_emits self B :
  emits (λ ev, ∃ b, ev.1 = SaveObjects (__index self) b) (index_upload self B).
Proof.
  unfold index_upload. apply emits_bind.
  - intros h. rewrite (index_all_loop_upload self B _ _ _ VNone).
    pose proof (upload_loop_emits (__client self) (__build_object self)
                  (__index self) B (objects_all (model self)) [] 0%nat VNone h).
    by destruct (upload_loop _ _ _ _ _ _ _ _ _).
  - intros [batch counts]. apply emits_bind; [|intros; apply emits_ret].
    apply emits_if; [|apply emits_ret].
    apply emits_bind; [|intros; apply emits_ret].
    apply emits_invoke. intros r. by eexists.
Qed.

Lemma set_settings_run self h :
  set_settings self h =
  if bool_decide (settings self ≠ ∅) then
    let c := SetSettings (__index self) (settings self) in
    (match respond (__client self) h c with
     | Ok _ => Ok ()
     | Raised e => Raised e
     end, [(c, respond (__client self) h c)])
  else (Ok (), []).
Proof.
  unfold set_settings. case_bool_decide; [apply invoke_unit_run|done].
Qed.

Lemma count_flushes_only p idx (t : list event) :
  (∀ i b, p (SaveObjects i b) = false) →
  Forall (λ ev, ∃ b, ev.1 = SaveObjects idx b) t → count p t = 0%nat.
Proof.
  intros Hp Ht. unfold count.
  induction Ht as [|[c r] t [b Hb] _ IH]; [done|]. simpl in Hb. subst c.
  rewrite filter_cons_False; [done|]. simpl. by rewrite Hp.
Qed.

Lemma clear_then_upload_run self B h :
  ∃ o ups,
    ((clear_index self ;; index_upload self B) h).2 =
      (ClearIndex (__index self), o) :: ups ∧
    Forall (λ ev, ∃ b, ev.1 = SaveObjects (__index self) b) ups ∧
    count is_clear ((ClearIndex (__index self), o) :: ups) = 1%nat.
Proof.
  rewrite bind_run. unfold clear_index at 1. rewrite invoke_unit_run.
  destruct (respond (__client self) h (ClearIndex (__index self))) as [v|e].
  - pose proof (index_upload_emits self B
                  (h ++ [(ClearIndex (__index self), Ok v)])) as Hup.
    destruct (index_upload self B _) as [r t3]. simpl in *.
    exists (Ok v), t3. split_and!; [done..|].
    change (S (count is_clear t3) = 1%nat).
    by rewrite (count_flushes_only is_clear (__index self)).
  - exists (Raised e), []. by split_and!.
Qed.

(** C5. In the in-place rebuild the settings, when there are some, are
    sent first, to the primary index.  Unless that call raises, the
    primary index is cleared next, once, and everything after the clear
    is a flush to the primary index: no upload comes before the clear and
    no second clear is made. *)
Theorem index_all_clears_once_first self B h :
  ∃ (sets : list event) (ups : list event),
    sets.*1 = settings_calls self (__index self) ∧
    Forall (λ ev, ∃ b, ev.1 = SaveObjects (__index self) b) ups ∧
    ((∃ e, (index_all self B h).1 = Raised e ∧
           (index_all self B h).2 = sets ∧ Exists (λ ev, ev.2 = Raised e) sets)
     ∨
     (∃ o, (index_all self B h).2 =
             sets ++ (ClearIndex (__index self), o) :: ups ∧
           Forall (λ ev, is_Ok ev.2) sets ∧
           count is_clear (index_all self B h).2 = 1%nat)).
Proof.
  rewrite index_all_run, bind_run, set_settings_run.
  unfold settings_calls. case_bool_decide as Hs.
  - set (c := SetSettings (__index self) (settings self)).
    simpl. fold c. destruct (respond (__client self) h c) as [v|e] eqn:Ec.
    + destruct (clear_then_upload_run self B (h ++ [(c, Ok v)]))
        as (o & ups & Ht & Hups & Hcount).
      destruct ((clear_index self ;; index_upload self B) _) as [r t].
      simpl in *. subst t.
      exists [(c, Ok v)], ups. split_and!; [done..|].
      right. exists o. split_and!; [done|by repeat constructor|done].
    + exists [(c, Raised e)], []. split_and!; [done..|].
      left. exists e. split_and!; [done..|]. by apply Exists_cons_hd.
  - destruct (clear_then_upload_run self B (h ++ []))
      as (o & ups & Ht & Hups & Hcount).
    destruct ((clear_index self ;; index_upload self B) _) as [r t].
    simpl in *. subst t.
    exists [], ups. split_and!; [done..|].
    right. exists o. by split_and!.
Qed.

(** ** The blue/green rebuild *)

Lemma reindex_all_phases self B h :
  reindex_all self B h =
  (x ← reindex_upload self B; reindex_swap self x.2 ;; mret x.1) h.
Proof.
  symmetry. unfold reindex_upload, reindex_all, reindex_swap.
  rewrite bind_assoc. apply bind_ext. intros _ h1.
  rewrite bind_assoc. apply bind_ext. intros _ h2.
  rewrite bind_assoc. apply bind_ext. intros [[batch counts] result] h3.
  apply (bind_ret_r _ (λ r, (counts, r))).
Qed.

(** Whatever the client answers, the first phase only calls the shadow
    index. *)
Lemma reindex_upload_emits self B :
  emits (on_index (__tmp_index self)) (reindex_upload self B).
Proof.
  unfold reindex_upload.
  apply emits_bind.
  { apply emits_if; [|apply emits_ret].
    apply emits_bind; [|intros; apply emits_ret]. by apply emits_invoke. }
  intros _. apply emits_bind.
  { by apply emits_invoke. }
  intros _. apply emits_bind.
  { intros h. rewrite reindex_all_loop_upload.
    eapply Forall_impl; [apply upload_loop_emits|].
    intros [c r] [b Hb]. simpl in Hb. by subst c. }
  intros [[batch counts] result]. apply emits_bind; [|intros; apply emits_ret].
  apply emits_if; [|apply emits_ret]. by apply emits_invoke.
Qed.

(** The second phase: nothing when [result] is falsy; otherwise the task
    of [result] is awaited on the shadow index and, once the wait has
    returned, the shadow index is moved onto the primary name. *)
Lemma reindex_swap_run self result h :
  let wait task := WaitTask (__tmp_index self) task in
  let move := MoveIndex (index_name self +:+ "_tmp") (index_name self) in
  reindex_swap self result h =
  if truthy result then
    match getitem_key result "taskID" with
    | Ok task =>
        match respond (__client self) h (wait task) with
        | Ok w =>
            let o := respond (__client self) (h ++ [(wait task, Ok w)]) move in
            (match o with Ok _ => Ok () | Raised e => Raised e end,
             [(wait task, Ok w); (move, o)])
        | Raised e => (Raised e, [(wait task, Raised e)])
        end
    | Raised e => (Raised e, [])
    end
  else (Ok (), []).
Proof.
  intros wait move. unfold reindex_swap.
  destruct (truthy result); [|done].
  rewrite bind_run. unfold lift at 1.
  destruct (getitem_key result "taskID") as [task|e]; [|done].
  rewrite bind_run, invoke_run. fold (wait task).
  rewrite app_nil_r.
  destruct (respond (__client self) h (wait task)) as [w|e]; [|done].
  rewrite invoke_unit_run. fold move. done.
Qed.

(** ** Rebuilds that run to their end *)

(** The uploads of the in-place rebuild, when no call raises and every
    document builds: the loop, then the flush of what is left. *)
Lemma index_upload_total self B h ds :
  never_raises (__client self) →
  Forall2 (λ i d, __build_object self i = Ok d) (objects_all (model self)) ds →
  ∃ batch' loop fin,
    index_upload self B h =
      (Ok (length (objects_all (model self))), loop ++ fin) ∧
    Forall (flush_to (__index self)) (loop ++ fin) ∧
    concat (flushes loop) ++ batch' = ds ∧
    (0 < B → Z.of_nat (length batch') < B ∧
       Forall (λ b : list (gmap string value), Z.of_nat (length b) = B)
         (flushes loop)) ∧
    flushes fin = (if (0 <? length batch')%nat then [batch'] else []).
Proof.
  intros Hcl Hds. unfold index_upload. rewrite bind_run.
  rewrite (index_all_loop_upload self B _ _ _ VNone).
  destruct (upload_loop_spec (__client self) (__build_object self)
              (__index self) B Hcl _ _ Hds [] 0%nat VNone h)
    as (batch' & loop & -> & Hfl & Hdocs & Hsz).
  simpl forget_result. cbv iota beta.
  exists batch', loop. rewrite bind_run.
  destruct (0 <? length batch')%nat.
  - rewrite invoke_unit_run.
    pose proof (Hcl (h ++ loop) (SaveObjects (__index self) batch')) as Hr.
    destruct (respond _ _ _) as [r|]; [|done]. simpl.
    exists [(SaveObjects (__index self) batch', Ok r)].
    split_and!; [done| |done| |done].
    + apply Forall_app. split; [done|]. repeat constructor. by eexists _, _.
    + intros HB. apply Hsz. simpl. lia.
  - simpl. exists []. rewrite app_nil_r.
    split_and!; [done..| |done]. intros HB. apply Hsz. simpl. lia.
Qed.

(** The first phase of the blue/green rebuild, under the same
    conditions. *)
Lemma reindex_upload_total self B h ds :
  never_raises (__client self) →
  Forall2 (λ i d, __build_object self i = Ok d) (objects_all (model self)) ds →
  ∃ batch' pre loop fin,
    reindex_upload self B h =
      (Ok (length (objects_all (model self)), last_answer (loop ++ fin) VNone),
       pre ++ loop ++ fin) ∧
    pre.*1 = settings_calls self (__tmp_index self) ++
             [ClearIndex (__tmp_index self)] ∧
    Forall (flush_to (__tmp_index self)) (loop ++ fin) ∧
    concat (flushes loop) ++ batch' = ds ∧
    (0 < B → Z.of_nat (length batch') < B ∧
       Forall (λ b : list (gmap string value), Z.of_nat (length b) = B)
         (flushes loop)) ∧
    flushes fin = (if (0 <? length batch')%nat then [batch'] else []).
Proof.
  intros Hcl Hds. unfold reindex_upload, settings_calls.
  set (sets := SetSettings (__tmp_index self) (settings self)).
  set (clear := ClearIndex (__tmp_index self)).
  assert (Hhead : ∃ pre, pre.*1 = (if bool_decide (settings self ≠ ∅)
                                    then [sets] else []) ++ [clear] ∧
            ∀ (k : M (nat * value)) r t, k (h ++ pre) = (r, t) →
              ((if bool_decide (settings self ≠ ∅)
                then invoke (__client self) sets ;; mret () else mret ()) ;;
               invoke (__client self) clear ;; k) h = (r, pre ++ t)).
  { case_bool_decide.
    - pose proof (Hcl h sets) as Hs.
      destruct (respond (__client self) h sets) as [v|] eqn:Es; [|done].
      pose proof (Hcl (h ++ [(sets, Ok v)]) clear) as Hc.
      destruct (respond (__client self) (h ++ [(sets, Ok v)]) clear)
        as [w|] eqn:Ec; [|done].
      exists [(sets, Ok v); (clear, Ok w)]. split; [done|].
      intros k r t Hk. rewrite bind_run, invoke_unit_run, Es.
      rewrite bind_run, invoke_run, Ec.
      rewrite <- app_assoc. simpl in *. by rewrite Hk.
    - pose proof (Hcl (h ++ []) clear) as Hc.
      destruct (respond (__client self) (h ++ []) clear) as [w|] eqn:Ec;
        [|done].
      exists [(clear, Ok w)]. split; [done|].
      intros k r t Hk. rewrite bind_run. simpl.
      rewrite bind_run, invoke_run, Ec. rewrite app_nil_r in *.
      by rewrite Hk. }
  destruct Hhead as (pre & Hpre & Hrun).
  destruct (upload_loop_spec (__client self) (__build_object self)
              (__tmp_index self) B Hcl _ _ Hds [] 0%nat VNone (h ++ pre))
    as (batch' & loop & Hloop & Hfl & Hdocs & Hsz).
  exists batch', pre, loop.
  assert (Hfin : ∃ fin,
            flushes fin = (if (0 <? length batch')%nat then [batch'] else []) ∧
            Forall (flush_to (__tmp_index self)) fin ∧
            (if (0 <? length batch')%nat
             then invoke (__client self) (SaveObjects (__tmp_index self) batch')
             else mret (last_answer loop VNone)) ((h ++ pre) ++ loop) =
            (Ok (last_answer (loop ++ fin) VNone), fin)).
  { destruct (0 <? length batch')%nat.
    - pose proof (Hcl ((h ++ pre) ++ loop)
                    (SaveObjects (__tmp_index self) batch')) as Hr.
      destruct (respond _ _ _) as [r|] eqn:Er; [|done].
      exists [(SaveObjects (__tmp_index self) batch', Ok r)].
      split_and!; [done|repeat constructor; by eexists _, _|].
      rewrite invoke_run, Er. by rewrite last_answer_snoc_Ok.
    - exists []. rewrite app_nil_r. by split_and!. }
  destruct Hfin as (fin & Hfin & Hfinfl & Hfinrun).
  exists fin. split_and!; [|done|by apply Forall_app|done| |done].
  - apply Hrun. rewrite bind_run, reindex_all_loop_upload, Hloop.
    cbv iota beta. rewrite bind_run, Hfinrun. simpl. by rewrite app_nil_r.
  - intros HB. apply Hsz. simpl. lia.
Qed.

Lemma count_zero p (t : list event) :
  Forall (λ ev : event, p ev.1 = false) t → count p t = 0%nat.
Proof.
  unfold count. induction 1 as [|ev t Hev _ IH]; [done|].
  rewrite filter_cons_False; [done|]. by rewrite Hev.
Qed.

Lemma on_index_not_move i (t : list event) :
  Forall (on_index i) t → Forall (λ ev : event, is_move ev.1 = false) t.
Proof.
  intros H. eapply Forall_impl; [exact H|].
  intros [c r]. unfold on_index. simpl. by destruct c.
Qed.

Lemma flush_to_on_index i (t : list event) :
  Forall (flush_to i) t → Forall (on_index i) t.
Proof.
  intros H. eapply Forall_impl; [exact H|]. by intros ev (b & r & ->).
Qed.

Lemma truthy_task_dict (dct : gmap string value) task :
  dct !! "taskID" = Some task → truthy (VDict dct) = true.
Proof.
  intros H. simpl. apply bool_decide_eq_true_2. intros ->.
  by rewrite lookup_empty in H.
Qed.

Lemma bound_shadow_neq self : bound self → __tmp_index self ≠ __index self.
Proof. intros [-> ->]. apply append_tmp_neq. Qed.

(** The whole blue/green rebuild when no call raises and every document
    builds: the first phase, then nothing, a failed lookup of the task,
    or the wait and the move. *)
Lemma reindex_all_total self B h ds :
  never_raises (__client self) →
  Forall2 (λ i d, __build_object self i = Ok d) (objects_all (model self)) ds →
  ∃ batch' pre loop fin swap r,
    reindex_all self B h = (r, pre ++ loop ++ fin ++ swap) ∧
    (reindex_upload self B h).2 = pre ++ loop ++ fin ∧
    pre.*1 = settings_calls self (__tmp_index self) ++
             [ClearIndex (__tmp_index self)] ∧
    Forall (flush_to (__tmp_index self)) (loop ++ fin) ∧
    concat (flushes loop) ++ batch' = ds ∧
    (0 < B → Z.of_nat (length batch') < B ∧
       Forall (λ b : list (gmap string value), Z.of_nat (length b) = B)
         (flushes loop)) ∧
    flushes fin = (if (0 <? length batch')%nat then [batch'] else []) ∧
    let result := last_answer (loop ++ fin) VNone in
    ((truthy result = false ∧ swap = [] ∧
      r = Ok (length (objects_all (model self)))) ∨
     (truthy result = true ∧ swap = [] ∧
      ∃ e, getitem_key result "taskID" = Raised e ∧ r = Raised e) ∨
     (truthy result = true ∧
      ∃ task w mv, getitem_key result "taskID" = Ok task ∧
        swap = [(WaitTask (__tmp_index self) task, Ok w);
                (MoveIndex (index_name self +:+ "_tmp") (index_name self),
                 Ok mv)] ∧
        r = Ok (length (objects_all (model self))))).
Proof.
  intros Hcl Hds.
  destruct (reindex_upload_total self B h ds Hcl Hds)
    as (batch' & pre & loop & fin & Hrun & Hpre & Hfl & Hdocs & Hsz & Hfin).
  exists batch', pre, loop, fin.
  assert (Hup : (reindex_upload self B h).2 = pre ++ loop ++ fin)
    by (by rewrite Hrun).
  rewrite reindex_all_phases, bind_run, Hrun. cbv iota beta. simpl fst.
  simpl snd. rewrite bind_run, reindex_swap_run.
  set (result := last_answer (loop ++ fin) VNone).
  set (h' := h ++ pre ++ loop ++ fin).
  destruct (truthy result) eqn:Htr.
  - destruct (getitem_key result "taskID") as [task|e] eqn:Etask.
    + pose proof (Hcl h' (WaitTask (__tmp_index self) task)) as Hw.
      destruct (respond (__client self) h' (WaitTask (__tmp_index self) task))
        as [w|]; [|done].
      match goal with
      | |- context [respond (__client self) ?hh (MoveIndex ?a ?b)] =>
          pose proof (Hcl hh (MoveIndex a b)) as Hm;
          destruct (respond (__client self) hh (MoveIndex a b)) as [mv|];
            [|done]
      end.
      eexists _, _. split.
      { simpl. rewrite <- !app_assoc. reflexivity. }
      split_and!; [done..|]. right. right. split; [done|].
      by exists task, w, mv.
    + exists [], (Raised e). split.
      { simpl. by rewrite <- !app_assoc. }
      split_and!; [done..|]. right. left. split_and!; [done..|]. by exists e.
  - exists [], (Ok (length (objects_all (model self)))). split.
    { simpl. by rewrite <- !app_assoc. }
    split_and!; [done..|]. by left.
Qed.

Lemma index_all_total self B h ds :
  never_raises (__client self) →
  Forall2 (λ i d, __build_object self i = Ok d) (objects_all (model self)) ds →
  ∃ batch' pre loop fin,
    index_all self B h =
      (Ok (length (objects_all (model self))), pre ++ loop ++ fin) ∧
    pre.*1 = settings_calls self (__index self) ++ [ClearIndex (__index self)] ∧
    Forall (flush_to (__index self)) (loop ++ fin) ∧
    concat (flushes loop) ++ batch' = ds ∧
    (0 < B → Z.of_nat (length batch') < B ∧
       Forall (λ b : list (gmap string value), Z.of_nat (length b) = B)
         (flushes loop)) ∧
    flushes fin = (if (0 <? length batch')%nat then [batch'] else []).
Proof.
  intros Hcl Hds. rewrite index_all_run, bind_run, set_settings_run.
  unfold settings_calls.
  set (sets := SetSettings (__index self) (settings self)).
  set (clear := ClearIndex (__index self)).
  case_bool_decide.
  - pose proof (Hcl h sets) as Hs. cbv zeta.
    destruct (respond (__client self) h sets) as [v|] eqn:Es; [|done].
    rewrite bind_run. unfold clear_index at 1. rewrite invoke_unit_run.
    fold clear.
    pose proof (Hcl (h ++ [(sets, Ok v)]) clear) as Hc.
    destruct (respond (__client self) (h ++ [(sets, Ok v)]) clear)
      as [w|] eqn:Ec; [|done].
    destruct (index_upload_total self B
                ((h ++ [(sets, Ok v)]) ++ [(clear, Ok w)]) ds Hcl Hds)
      as (batch' & loop & fin & -> & Hfl & Hdocs & Hsz & Hfin).
    exists batch', [(sets, Ok v); (clear, Ok w)], loop, fin.
    by split_and!.
  - rewrite bind_run. unfold clear_index at 1. rewrite invoke_unit_run.
    fold clear.
    pose proof (Hcl (h ++ []) clear) as Hc.
    destruct (respond (__client self) (h ++ []) clear) as [w|] eqn:Ec; [|done].
    destruct (index_upload_total self B ((h ++ []) ++ [(clear, Ok w)]) ds
                Hcl Hds)
      as (batch' & loop & fin & -> & Hfl & Hdocs & Hsz & Hfin).
    exists batch', [(clear, Ok w)], loop, fin.
    by split_and!.
Qed.

Lemma settings_clear_no_flush (pre : list event) cs idx :
  pre.*1 = cs ++ [ClearIndex idx] →
  (∀ c, c ∈ cs → is_flush c = false) → flushes pre = [].
Proof.
  intros Hpre Hcs. apply flushes_not_flush, Forall_forall.
  intros [c r] Hin. simpl.
  assert (Hc : c ∈ pre.*1) by (apply list_elem_of_fmap; by exists (c, r)).
  rewrite Hpre in Hc. apply elem_of_app in Hc as [Hc|Hc]; [by apply Hcs|].
  by apply list_elem_of_singleton in Hc as ->.
Qed.

Lemma settings_calls_no_flush self idx c :
  c ∈ settings_calls self idx → is_flush c = false.
Proof.
  unfold settings_calls. case_bool_decide; [|by intros ?%elem_of_nil].
  by intros ->%list_elem_of_singleton.
Qed.

(** C2. When no call raises and every document builds, a full rebuild
    over [N] records with batch size [B >= 1] counts [N] records and
    issues [ceil(N / B)] flushes, none when [N = 0]; the sizes of the
    flushed batches add up to [N] and every batch but the last holds
    exactly [B] documents.  This holds of the in-place rebuild, which
    returns [N], and of the blue/green rebuild. *)
Theorem rebuild_flushes_in_batches self B h :
  1 ≤ B → never_raises (__client self) →
  Forall (λ i, is_Ok (__build_object self i)) (objects_all (model self)) →
  let N := length (objects_all (model self)) in
  (index_all self B h).1 = Ok N ∧
  flushed_in_batches N B (index_all self B h).2 ∧
  flushed_in_batches N B (reindex_all self B h).2.
Proof.
  intros HB Hcl Hbuild N.
  destruct (Forall2_build_exists _ _ Hbuild) as [ds Hds].
  assert (HN : N = length ds) by (by apply Forall2_length in Hds).
  destruct (index_all_total self B h ds Hcl Hds)
    as (batch1 & pre1 & loop1 & fin1 & -> & Hpre1 & _ & Hdocs1 & Hsz1 & Hfin1).
  destruct (reindex_all_total self B h ds Hcl Hds)
    as (batch2 & pre2 & loop2 & fin2 & swap & r & -> & _ & Hpre2 & _ & Hdocs2 &
        Hsz2 & Hfin2 & Hswap).
  destruct Hsz1 as [Hlt1 Hfull1]; [lia|].
  destruct Hsz2 as [Hlt2 Hfull2]; [lia|].
  simpl. unfold N in *. rewrite HN. split_and!; [done| |].
  - refine (proj1 (batches_spec B pre1 loop1 fin1 batch1 ds
                     HB _ Hfull1 Hlt1 Hdocs1 Hfin1)).
    eapply settings_clear_no_flush; [exact Hpre1|].
    apply settings_calls_no_flush.
  - assert (Hsw : flushes swap = []).
    { destruct Hswap as [(_ & -> & _)|[(_ & -> & _)|(_ & ? & ? & ? & _ & -> & _)]];
        done. }
    assert (Hfl : flushes (pre2 ++ loop2 ++ fin2 ++ swap) =
                  flushes (pre2 ++ loop2 ++ fin2)).
    { rewrite !flushes_app, Hsw. by rewrite app_nil_r. }
    unfold flushed_in_batches. rewrite Hfl.
    refine (proj1 (batches_spec B pre2 loop2 fin2 batch2 ds
                     HB _ Hfull2 Hlt2 Hdocs2 Hfin2)).
    eapply settings_clear_no_flush; [exact Hpre2|].
    apply settings_calls_no_flush.
Qed.

Lemma emits_invoke_answer P cl c :
  (∀ h, P (c, respond cl h c)) → emits P (invoke cl c).
Proof. intros H h. simpl. by repeat constructor. Qed.

Lemma upload_loop_answered cl build idx B l : ∀ batch counts result,
  emits (answered_by cl) (upload_loop cl build idx B l batch counts result).
Proof.
  induction l as [|inst rest IH]; intros batch counts result; simpl.
  - apply emits_ret.
  - apply emits_bind; [apply emits_lift|]. intros obj.
    apply emits_bind.
    + apply emits_if; [|apply emits_ret].
      apply emits_bind; [|intros; apply emits_ret].
      apply emits_invoke_answer. intros h. by exists h.
    + intros [b r]. apply IH.
Qed.

Lemma reindex_upload_answered self B :
  emits (answered_by (__client self)) (reindex_upload self B).
Proof.
  unfold reindex_upload.
  apply emits_bind.
  { apply emits_if; [|apply emits_ret].
    apply emits_bind; [|intros; apply emits_ret].
    apply emits_invoke_answer. intros h. by exists h. }
  intros _. apply emits_bind.
  { apply emits_invoke_answer. intros h. by exists h. }
  intros _. apply emits_bind.
  { intros h. rewrite reindex_all_loop_upload. apply upload_loop_answered. }
  intros [[batch counts] result]. apply emits_bind; [|intros; apply emits_ret].
  apply emits_if; [|apply emits_ret].
  apply emits_invoke_answer. intros h. by exists h.
Qed.

(** What holds of every answer of the client holds of every event of a
    blue/green rebuild. *)
Lemma reindex_all_answers (P : event → Prop) self B :
  (∀ h c, P (c, respond (__client self) h c)) →
  emits P (reindex_all self B).
Proof.
  intros HP. unfold reindex_all.
  apply emits_bind.
  { apply emits_if; [|apply emits_ret].
    apply emits_bind; [|intros; apply emits_ret].
    by apply emits_invoke_answer. }
  intros _. apply emits_bind; [by apply emits_invoke_answer|].
  intros _. apply emits_bind.
  { intros h. rewrite reindex_all_loop_upload.
    eapply Forall_impl; [apply upload_loop_answered|].
    intros [c r] [h' Hr]. simpl in Hr. subst r. apply HP. }
  intros [[batch counts] result]. apply emits_bind.
  { apply emits_if; [|apply emits_ret]. by apply emits_invoke_answer. }
  intros result'. apply emits_bind; [|intros; apply emits_ret].
  apply emits_if; [|apply emits_ret].
  apply emits_bind; [apply emits_lift|]. intros task.
  apply emits_bind; [by apply emits_invoke_answer|]. intros _.
  apply emits_bind; [by apply emits_invoke_answer|]. intros _.
  apply emits_ret.
Qed.

(** Every run of the blue/green rebuild, whatever the client does: calls
    on the shadow index, then at most one move of the shadow name onto the
    primary name; a run that raised has not moved, or the move itself
    raised. *)
Lemma reindex_all_shape self B h :
  ∃ before mv,
    (reindex_all self B h).2 = before ++ mv ∧
    Forall (on_index (__tmp_index self)) before ∧
    (mv = [] ∨
     ∃ o, mv = [(MoveIndex (index_name self +:+ "_tmp") (index_name self), o)] ∧
          (is_Ok o ↔ is_Ok (reindex_all self B h).1)) ∧
    (∀ e, (reindex_all self B h).1 = Raised e →
       mv = [] ∨
       mv = [(MoveIndex (index_name self +:+ "_tmp") (index_name self),
              Raised e)]).
Proof.
  rewrite reindex_all_phases, bind_run.
  pose proof (reindex_upload_emits self B h) as Hup.
  destruct (reindex_upload self B h) as [[[counts result]|e] t1];
    simpl in Hup.
  - rewrite bind_run, reindex_swap_run. cbv zeta. simpl fst. simpl snd.
    destruct (truthy result).
    + destruct (getitem_key result "taskID") as [task|e].
      * destruct (respond (__client self) (h ++ t1)
                    (WaitTask (__tmp_index self) task)) as [w|e] eqn:Ew.
        -- set (o := respond (__client self) _ (MoveIndex _ _)).
           exists (t1 ++ [(WaitTask (__tmp_index self) task, Ok w)]),
             [(MoveIndex (index_name self +:+ "_tmp") (index_name self), o)].
           split_and!.
           ++ destruct o; simpl; by rewrite <- app_assoc.
           ++ apply Forall_app. split; [done|]. by repeat constructor.
           ++ right. exists o. split; [done|]. by destruct o.
           ++ intros e. destruct o; simpl; [done|]. intros [= ->]. by right.
        -- exists (t1 ++ [(WaitTask (__tmp_index self) task, Raised e)]), [].
           split_and!.
           ++ simpl. by rewrite app_nil_r.
           ++ apply Forall_app. split; [done|]. by repeat constructor.
           ++ by left.
           ++ intros; by left.
      * exists t1, []. split_and!; [by simpl|done|by left|intros; by left].
    + exists t1, []. split_and!; [by simpl|done|by left|intros; by left].
  - exists t1, []. split_and!; [by rewrite app_nil_r|done|by left|].
    intros; by left.
Qed.

(** C6. In the blue/green rebuild of a constructed binding every call
    made before the move is made on the shadow index, whose name differs
    from the primary name; the move, when it is reached, is the last
    call.  So a run that raised either has not issued the move, or the
    move itself is what raised; and for an engine in which a call on an
    index changes that index only, a run that has not issued the move
    leaves the state of the primary index as it was. *)
Theorem reindex_all_spares_primary {index_state : Type}
    (effect : call → result value → option index_state → option index_state)
    (move_effect : string → string → result value →
                   gmap string index_state → gmap string index_state)
    cfg d m cl h0 self t0 B h (eng : gmap string index_state) :
  __init__ cfg d m cl h0 = (Ok self, t0) →
  __tmp_index self ≠ __index self ∧
  ∃ before mv,
    (reindex_all self B h).2 = before ++ mv ∧
    Forall (on_index (__tmp_index self)) before ∧
    (mv = [] ∨ ∃ o, mv = [(MoveIndex (__tmp_index self) (__index self), o)]) ∧
    (∀ e, (reindex_all self B h).1 = Raised e →
       mv = [] ∨
       mv = [(MoveIndex (__tmp_index self) (__index self), Raised e)]) ∧
    (mv = [] →
     engine_run effect move_effect eng (reindex_all self B h).2
       !! __index self = eng !! __index self).
Proof.
  intros Hinit. apply init_bound in Hinit as (Hb & _).
  split; [by apply bound_shadow_neq|].
  destruct (reindex_all_shape self B h) as (before & mv & Ht & Hbefore & Hmv & Hr).
  destruct Hb as [Hi Htmp]. rewrite <- Htmp, <- Hi in *.
  exists before, mv. split_and!; [done|done| |done|].
  - destruct Hmv as [->|(o & -> & _)]; [by left|right; by exists o].
  - intros ->. rewrite Ht, app_nil_r.
    apply (engine_run_frame _ _ _ _ (__tmp_index self)); [done|].
    rewrite Htmp, Hi. apply append_tmp_neq.
Qed.

Lemma reindex_all_spares_primary_witness :
  "Post_tmp" ≠ "Post" ∧
  ∃ before mv,
    (reindex_all (post_index plain_cfg title_loc Post down_client ["title"])
       2 []).2 = before ++ mv ∧
    Forall (on_index "Post_tmp") before.
Proof.
  destruct (reindex_all_spares_primary (index_state := unit)
              (λ _ _ s, s) (λ _ _ _ e, e)
              plain_cfg title_loc Post down_client []
              (post_index plain_cfg title_loc Post down_client ["title"])
              [(InitIndex "Post", Ok (VObject "Post"));
               (InitIndex "Post_tmp", Ok (VObject "Post_tmp"))]
              2 [] ∅) as (Hne & before & mv & Ht & Hbefore & _).
  - rewrite init_run. reflexivity.
  - split; [exact Hne|]. exists before, mv. split; [exact Ht|exact Hbefore].
Defined.

(** Every run of the blue/green rebuild over an empty collection: the
    settings call when there are settings, then the clear, both on the
    shadow index; the count is [0] unless one of the two calls raised. *)
Lemma reindex_all_empty_run self B h :
  objects_all (model self) = [] →
  Forall (λ ev : event, on_index (__tmp_index self) ev ∧
            is_wait ev.1 = false ∧ is_flush ev.1 = false)
    (reindex_all self B h).2 ∧
  ((reindex_all self B h).1 = Ok 0%nat ∧
     Forall (λ ev : event, is_Ok ev.2) (reindex_all self B h).2
   ∨ ∃ e, (reindex_all self B h).1 = Raised e ∧
          Exists (λ ev : event, ev.2 = Raised e) (reindex_all self B h).2).
Proof.
  intros Hempty. rewrite reindex_all_phases, bind_run.
  unfold reindex_upload. rewrite Hempty. rewrite bind_run.
  set (sets := SetSettings (__tmp_index self) (settings self)).
  set (clear := ClearIndex (__tmp_index self)).
  case_bool_decide.
  - rewrite invoke_unit_run.
    destruct (respond (__client self) h sets) as [v|e] eqn:Es.
    + rewrite bind_run, invoke_run.
      destruct (respond (__client self) (h ++ [(sets, Ok v)]) clear)
        as [w|e] eqn:Ec; simpl.
      * split; [by repeat constructor|]. left.
        split; [done|by repeat constructor].
      * split; [by repeat constructor|]. right. exists e.
        split; [done|]. apply Exists_cons_tl, Exists_cons_hd. done.
    + simpl. split; [by repeat constructor|]. right. exists e.
      split; [done|]. by apply Exists_cons_hd.
  - simpl. rewrite bind_run, invoke_run.
    destruct (respond (__client self) (h ++ []) clear) as [w|e] eqn:Ec; simpl.
    + split; [by repeat constructor|]. left.
      split; [done|by repeat constructor].
    + split; [by repeat constructor|]. right. exists e.
      split; [done|]. by apply Exists_cons_hd.
Qed.

(** C4. In the blue/green rebuild of a constructed binding over an empty
    record stream no wait, no move and no flush is made, every call made
    is on the shadow index, whose name is not the primary one, so that
    the state of the primary index is as it was; the rebuild returns
    count 0, and fails only when the settings call or the clear itself
    raised. *)
Theorem reindex_all_empty_stream {index_state : Type}
    (effect : call → result value → option index_state → option index_state)
    (move_effect : string → string → result value →
                   gmap string index_state → gmap string index_state)
    cfg d m cl h0 self t0 B h (eng : gmap string index_state) :
  __init__ cfg d m cl h0 = (Ok self, t0) →
  objects_all m = [] →
  count is_wait (reindex_all self B h).2 = 0%nat ∧
  count is_move (reindex_all self B h).2 = 0%nat ∧
  count is_flush (reindex_all self B h).2 = 0%nat ∧
  Forall (on_index (__tmp_index self)) (reindex_all self B h).2 ∧
  __tmp_index self ≠ __index self ∧
  engine_run effect move_effect eng (reindex_all self B h).2 !! __index self =
    eng !! __index self ∧
  (Forall (λ ev : event, is_Ok ev.2) (reindex_all self B h).2 →
   (reindex_all self B h).1 = Ok 0%nat) ∧
  (never_raises cl → (reindex_all self B h).1 = Ok 0%nat).
Proof.
  intros Hinit Hempty. apply init_bound in Hinit as (Hb & Hcl & Hm & _).
  rewrite <- Hm in Hempty.
  destruct (reindex_all_empty_run self B h Hempty) as [Hall Hr].
  assert (Hon : Forall (on_index (__tmp_index self)) (reindex_all self B h).2).
  { eapply Forall_impl; [exact Hall|]. by intros ev (? & _). }
  assert (Hne : __tmp_index self ≠ __index self) by by apply bound_shadow_neq.
  assert (Hoks : Forall (λ ev : event, is_Ok ev.2) (reindex_all self B h).2 →
                 (reindex_all self B h).1 = Ok 0%nat).
  { intros Hok. destruct Hr as [[? _]|(e & _ & Hex)]; [done|].
    apply Exists_exists in Hex as (ev & Hin & Hev).
    rewrite Forall_forall in Hok. specialize (Hok ev Hin).
    rewrite Hev in Hok. done. }
  split_and!; [| | |done|done| |done|].
  - apply count_zero. eapply Forall_impl; [exact Hall|]. by intros ev (_ & ? & _).
  - apply count_zero. by apply (on_index_not_move (__tmp_index self)).
  - apply count_zero. eapply Forall_impl; [exact Hall|]. by intros ev (_ & _ & ?).
  - by apply (engine_run_frame _ _ _ _ (__tmp_index self)).
  - intros Hnever. apply Hoks. apply reindex_all_answers.
    intros h' c. rewrite Hcl. apply Hnever.
Qed.

Lemma reindex_all_empty_stream_witness :
  count is_move
    (reindex_all (post_index plain_cfg str_decl Empty_Post task_client ["title"])
       1000 []).2 = 0%nat ∧
  (reindex_all (post_index plain_cfg str_decl Empty_Post task_client ["title"])
     1000 []).1 = Ok 0%nat.
Proof.
  destruct (reindex_all_empty_stream (index_state := unit)
              (λ _ _ s, s) (λ _ _ _ e, e)
              plain_cfg str_decl Empty_Post task_client []
              (post_index plain_cfg str_decl Empty_Post task_client ["title"])
              [(InitIndex "Post", Ok (VObject "Post"));
               (InitIndex "Post_tmp", Ok (VObject "Post_tmp"))]
              1000 [] ∅)
    as (_ & Hmove & _ & _ & _ & _ & _ & Hret).
  - rewrite init_run. reflexivity.
  - reflexivity.
  - split; [exact Hmove|]. apply Hret. intros h c. exact I.
Defined.

Lemma rebuild_flushes_in_batches_witness :
  (index_all (post_index plain_cfg title_loc Post task_client ["title"]) 2 []).1
    = Ok 3%nat ∧
  flushed_in_batches 3 2
    (index_all (post_index plain_cfg title_loc Post task_client ["title"])
       2 []).2 ∧
  flushed_in_batches 3 2
    (reindex_all (post_index plain_cfg title_loc Post task_client ["title"])
       2 []).2.
Proof.
  apply (rebuild_flushes_in_batches
           (post_index plain_cfg title_loc Post task_client ["title"]) 2 []).
  - lia.
  - intros h c. exact I.
  - repeat constructor.
Defined.

(** C1. In the blue/green rebuild of a constructed binding over at least
    one record, when no call raises, every document builds and the
    client answers each flush with its task (a dictionary that holds a
    [taskID], as the interface of the engine has it), the rebuild
    returns the number of records and its trace ends with the last flush
    to the shadow index, the wait on the shadow index for the task of
    that very answer, and the move of the shadow name onto the primary
    name; everything before is a call on the shadow index, and the move
    is made exactly once. *)
Theorem reindex_all_moves_once cfg d m cl h0 self t0 B h :
  __init__ cfg d m cl h0 = (Ok self, t0) →
  objects_all m ≠ [] →
  never_raises cl →
  Forall (λ i, is_Ok (__build_object self i)) (objects_all m) →
  (∀ h' i b, ∃ dct task,
     respond cl h' (SaveObjects i b) = Ok (VDict dct) ∧
     dct !! "taskID" = Some task) →
  ∃ before b dct task w mv,
    reindex_all self B h =
      (Ok (length (objects_all m)),
       before ++ [(SaveObjects (__tmp_index self) b, Ok (VDict dct));
                  (WaitTask (__tmp_index self) task, Ok w);
                  (MoveIndex (__tmp_index self) (__index self), Ok mv)]) ∧
    dct !! "taskID" = Some task ∧
    Forall (on_index (__tmp_index self)) before ∧
    count is_move (reindex_all self B h).2 = 1%nat ∧
    __tmp_index self = index_name self +:+ "_tmp" ∧
    __index self = index_name self.
Proof.
  intros Hinit Hne Hnever Hbuild Htask.
  apply init_bound in Hinit as ([Hi Htmp] & Hcl & Hm & _). subst cl m.
  destruct (Forall2_build_exists _ _ Hbuild) as [ds Hds].
  assert (Hdsne : ds ≠ []).
  { intros ->. apply Forall2_nil_inv_r in Hds. done. }
  destruct (reindex_all_total self B h ds Hnever Hds)
    as (batch' & pre & loop & fin & swap & r & Hrun & Hup & Hpre & Hfl &
        Hdocs & _ & Hfin & Hswap).
  pose proof (reindex_upload_emits self B h) as Hon.
  pose proof (reindex_upload_answered self B h) as Hans.
  rewrite Hup in Hon, Hans.
  (* the uploads end with a flush *)
  assert (Hlast : ∃ t' b v, loop ++ fin = t' ++ [(SaveObjects (__tmp_index self) b, Ok v)]).
  { destruct (loop ++ fin) as [|ev t] eqn:E using rev_ind.
    - exfalso. apply app_eq_nil in E as [-> ->]. simpl in *.
      destruct batch' as [|d0 rest]; [by subst ds|]. simpl in Hfin. done.
    - clear IHt. apply Forall_app in Hfl as [_ Hev].
      apply Forall_singleton in Hev as (b & v & ->). by exists t, b, v. }
  destruct Hlast as (t' & b & v & Hlast).
  rewrite Hlast in Hswap, Hon, Hans. rewrite last_answer_snoc_Ok in Hswap.
  cbv zeta in Hswap.
  (* its answer holds a task *)
  assert (Hv : ∃ dct task, v = VDict dct ∧ dct !! "taskID" = Some task).
  { apply Forall_app in Hans as [_ Hans]. apply Forall_app in Hans as [_ Hans].
    apply Forall_singleton in Hans as [h' Hh']. simpl in Hh'.
    destruct (Htask h' (__tmp_index self) b) as (dct & task & Hr & Hd).
    rewrite Hr in Hh'. injection Hh' as ->. by exists dct, task. }
  destruct Hv as (dct & task & -> & Hd).
  pose proof (truthy_task_dict dct task Hd) as Htr.
  assert (Hget : getitem_key (VDict dct) "taskID" = Ok task)
    by (simpl; by rewrite Hd).
  destruct Hswap as [(Hf & _)|[(_ & _ & e & He & _)|(_ & task' & w & mv & Ht & -> & ->)]];
    [congruence|congruence|].
  rewrite Hget in Ht. injection Ht as <-.
  assert (Htrace : pre ++ loop ++ fin ++
            [(WaitTask (__tmp_index self) task, Ok w);
             (MoveIndex (index_name self +:+ "_tmp") (index_name self), Ok mv)] =
          (pre ++ t') ++
            [(SaveObjects (__tmp_index self) b, Ok (VDict dct));
             (WaitTask (__tmp_index self) task, Ok w);
             (MoveIndex (__tmp_index self) (__index self), Ok mv)]).
  { rewrite (app_assoc loop fin), Hlast, <- !app_assoc. simpl.
    by rewrite Htmp, Hi. }
  assert (Hbefore : Forall (on_index (__tmp_index self)) (pre ++ t')).
  { rewrite app_assoc in Hon. by apply Forall_app in Hon as [? _]. }
  exists (pre ++ t'), b, dct, task, w, mv.
  rewrite Hrun, Htrace. split_and!; [done..| |done|done].
  simpl. rewrite count_app.
  rewrite (count_zero is_move (pre ++ t'))
    by by apply (on_index_not_move (__tmp_index self)).
  reflexivity.
Qed.

Lemma reindex_all_moves_once_witness :
  ∃ before b dct task w mv,
    reindex_all (post_index plain_cfg title_loc Post task_client ["title"]) 2 [] =
      (Ok 3%nat,
       before ++ [(SaveObjects "Post_tmp" b, Ok (VDict dct));
                  (WaitTask "Post_tmp" task, Ok w);
                  (MoveIndex "Post_tmp" "Post", Ok mv)]) ∧
    dct !! "taskID" = Some task.
Proof.
  destruct (reindex_all_moves_once plain_cfg title_loc Post task_client []
              (post_index plain_cfg title_loc Post task_client ["title"])
              [(InitIndex "Post", Ok (VObject "Post"));
               (InitIndex "Post_tmp", Ok (VObject "Post_tmp"))]
              2 [])
    as (before & b & dct & task & w & mv & Hrun & Hd & _).
  - rewrite init_run. reflexivity.
  - discriminate.
  - intros h c. exact I.
  - repeat constructor.
  - intros h' i b. eexists _, _. split; [reflexivity|]. reflexivity.
  - exists before, b, dct, task, w, mv. split; [exact Hrun|exact Hd].
Defined.

(** Outside that interface, the guard [if result:] at work: against a
    client that answers [None] to every call, the rebuild of three
    records flushes them to the shadow index, returns 3, and makes
    neither the wait nor the move. *)
Lemma reindex_all_none_answer_no_move :
  __init__ plain_cfg title_loc Post none_client [] =
    (Ok (post_index plain_cfg title_loc Post none_client ["title"]),
     [(InitIndex "Post", Ok (VObject "Post"));
      (InitIndex "Post_tmp", Ok (VObject "Post_tmp"))]) ∧
  length (objects_all Post) = 3%nat ∧
  (reindex_all (post_index plain_cfg title_loc Post none_client ["title"])
     2 []).1 = Ok 3%nat ∧
  length (flushes
    (reindex_all (post_index plain_cfg title_loc Post none_client ["title"])
       2 []).2) = 2%nat ∧
  count is_wait
    (reindex_all (post_index plain_cfg title_loc Post none_client ["title"])
       2 []).2 = 0%nat ∧
  count is_move
    (reindex_all (post_index plain_cfg title_loc Post none_client ["title"])
       2 []).2 = 0%nat.
Proof.
  split; [rewrite init_run; reflexivity|]. split; [reflexivity|].
  split_and!; vm_compute; reflexivity.
Qed.

(** ** Errors stop a run where they occur *)

Lemma stops_ret {A} (a : A) : stops_at_raise (mret a : M A).
Proof. intros h. constructor. Qed.

Lemma stops_lift {A} (r : result A) : stops_at_raise (lift r).
Proof. intros h. unfold stopped_at_raise. simpl. destruct r; [constructor|]. left. constructor. Qed.

Lemma stops_invoke cl c : stops_at_raise (invoke cl c).
Proof.
  intros h. unfold stopped_at_raise, all_answered. rewrite invoke_run. simpl.
  destruct (respond cl h c) as [v|e] eqn:E.
  - by repeat constructor.
  - right. exists [], c. by split.
Qed.

Lemma stops_bind {A B} (m : M A) (f : A → M B) :
  stops_at_raise m → (∀ a, stops_at_raise (f a)) → stops_at_raise (m ≫= f).
Proof.
  intros Hm Hf h. rewrite bind_run. specialize (Hm h).
  destruct (m h) as [[a|e] t1]; [|done].
  specialize (Hf a (h ++ t1)). destruct (f a (h ++ t1)) as [[b|e] t2].
  - unfold stopped_at_raise, all_answered in *. simpl in *.
    by apply Forall_app.
  - unfold stopped_at_raise, all_answered in *. simpl in *.
    destruct Hf as [Hok|(t & c & -> & Hok)].
    + left. by apply Forall_app.
    + right. exists (t1 ++ t), c. rewrite app_assoc. split; [done|].
      by apply Forall_app.
Qed.

Lemma stops_if {A} (b : bool) (m1 m2 : M A) :
  stops_at_raise m1 → stops_at_raise m2 →
  stops_at_raise (if b then m1 else m2).
Proof. by destruct b. Qed.

Lemma upload_loop_stops cl build idx B l : ∀ batch counts result,
  stops_at_raise (upload_loop cl build idx B l batch counts result).
Proof.
  induction l as [|inst rest IH]; intros batch counts result; simpl.
  - apply stops_ret.
  - apply stops_bind; [apply stops_lift|]. intros obj.
    apply stops_bind.
    + apply stops_if; [|apply stops_ret].
      apply stops_bind; [apply stops_invoke|intros; apply stops_ret].
    + intros [b r]. apply IH.
Qed.

Lemma index_all_stops self B : stops_at_raise (index_all self B).
Proof.
  unfold index_all, set_settings, clear_index.
  apply stops_bind.
  { apply stops_if; [|apply stops_ret].
    apply stops_bind; [apply stops_invoke|intros; apply stops_ret]. }
  intros _. apply stops_bind.
  { apply stops_bind; [apply stops_invoke|intros; apply stops_ret]. }
  intros _. apply stops_bind.
  { intros h. rewrite (index_all_loop_upload self B _ _ _ VNone).
    pose proof (upload_loop_stops (__client self) (__build_object self)
                  (__index self) B (objects_all (model self)) [] 0%nat VNone h)
      as Hs.
    destruct (upload_loop _ _ _ _ _ _ _ _ _) as [[x|e] t]; exact Hs. }
  intros [batch counts]. apply stops_bind; [|intros; apply stops_ret].
  apply stops_if; [|apply stops_ret].
  apply stops_bind; [apply stops_invoke|intros; apply stops_ret].
Qed.

Lemma reindex_all_stops self B : stops_at_raise (reindex_all self B).
Proof.
  unfold reindex_all.
  apply stops_bind.
  { apply stops_if; [|apply stops_ret].
    apply stops_bind; [apply stops_invoke|intros; apply stops_ret]. }
  intros _. apply stops_bind; [apply stops_invoke|].
  intros _. apply stops_bind.
  { intros h. rewrite reindex_all_loop_upload. apply upload_loop_stops. }
  intros [[batch counts] result]. apply stops_bind.
  { apply stops_if; [apply stops_invoke|apply stops_ret]. }
  intros result'. apply stops_bind; [|intros; apply stops_ret].
  apply stops_if; [|apply stops_ret].
  apply stops_bind; [apply stops_lift|]. intros task.
  apply stops_bind; [apply stops_invoke|]. intros _.
  apply stops_bind; [apply stops_invoke|]. intros _.
  apply stops_ret.
Qed.

Lemma update_obj_index_stops self inst :
  stops_at_raise (update_obj_index self inst).
Proof.
  unfold update_obj_index. apply stops_bind; [apply stops_lift|]. intros obj.
  apply stops_bind; [apply stops_invoke|intros; apply stops_ret].
Qed.

Lemma stopped_at_raise_last {A} (x : result A * list event) t1 c e t2 :
  stopped_at_raise x → x.2 = t1 ++ (c, Raised e) :: t2 →
  t2 = [] ∧ x.1 = Raised e.
Proof.
  unfold stopped_at_raise, all_answered. intros Hx Ht.
  assert (Hbad : ∀ t, Forall (λ ev : event, is_Ok ev.2) t →
                      (c, Raised e) ∈ t → False).
  { intros t Hok Hin. rewrite Forall_forall in Hok. by apply (Hok _ Hin). }
  assert (Hin : (c, Raised e) ∈ x.2).
  { rewrite Ht, elem_of_app, elem_of_cons. right. by left. }
  destruct x.1 as [a|e'].
  - exfalso. by apply (Hbad _ Hx).
  - destruct Hx as [Hok|(t & c' & Heq & Hok)]; [exfalso; by apply (Hbad _ Hok)|].
    rewrite Heq in Ht. clear Hin.
    destruct t2 as [|ev t2 _] using rev_ind.
    + apply app_inj_tail in Ht as [_ Hev]. injection Hev as _ ->. done.
    + exfalso. rewrite app_comm_cons, app_assoc in Ht.
      apply app_inj_tail in Ht as [-> _]. apply (Hbad _ Hok).
      rewrite elem_of_app, elem_of_cons. right. by left.
Qed.

(** X1. In a full rebuild, in-place or blue/green, a call that raises is
    the last call made, and its exception is the outcome of the rebuild,
    unchanged: nothing is retried, nothing is sent after a failure. *)
Theorem rebuild_stops_at_first_raise self B h t1 c e t2 :
  ((index_all self B h).2 = t1 ++ (c, Raised e) :: t2 →
   t2 = [] ∧ (index_all self B h).1 = Raised e) ∧
  ((reindex_all self B h).2 = t1 ++ (c, Raised e) :: t2 →
   t2 = [] ∧ (reindex_all self B h).1 = Raised e).
Proof.
  split; intros Ht.
  - by apply (stopped_at_raise_last _ t1 c e t2 (index_all_stops self B h)).
  - by apply (stopped_at_raise_last _ t1 c e t2 (reindex_all_stops self B h)).
Qed.

Lemma rebuild_stops_at_first_raise_witness :
  (index_all (post_index plain_cfg title_loc Post down_client ["title"]) 2 []).1
    = Raised (ClientError "unreachable").
Proof.
  refine (proj2 (proj1 (rebuild_stops_at_first_raise
            (post_index plain_cfg title_loc Post down_client ["title"]) 2 []
            [] (SetSettings "Post" ranking) (ClientError "unreachable") []) _)).
  vm_compute. reflexivity.
Defined.

(** ** What the flushed batches hold *)

Lemma chunks_lookup {A} (b : nat) (fl : list (list A)) (rest : list A) :
  Forall (λ x, length x = b) fl →
  ∀ i x, fl !! i = Some x → x = take b (drop (i * b) (concat fl ++ rest)).
Proof.
  induction 1 as [|a fl Ha _ IH]; intros i x Hx; [done|].
  rewrite concat_cons, <- app_assoc. destruct i as [|i].
  - injection Hx as ->. rewrite Nat.mul_0_l, drop_0.
    by rewrite take_app_length'.
  - rewrite drop_app_ge by lia.
    replace (S i * b - length a)%nat with (i * b)%nat by lia.
    by apply IH.
Qed.

Lemma chunks_with_rest_lookup {A} (b : nat) (fl : list (list A))
    (batch' ds : list A) :
  (1 ≤ b)%nat → Forall (λ x, length x = b) fl → (length batch' < b)%nat →
  concat fl ++ batch' = ds →
  ∀ i x,
    (fl ++ (if (0 <? length batch')%nat then [batch'] else [])) !! i = Some x →
    x = take b (drop (i * b) ds) ∧ x ≠ [].
Proof.
  intros Hb Hfl Hlt <- i x Hx.
  apply lookup_app_Some in Hx as [Hx|[Hge Hx]].
  - split; [by apply chunks_lookup|].
    rewrite Forall_forall in Hfl.
    assert (length x = b) by (apply Hfl; by eapply list_elem_of_lookup_2).
    intros ->. simpl in *. lia.
  - destruct batch' as [|d0 rest]; simpl in Hx; [done|].
    destruct (i - length fl)%nat as [|?] eqn:Ei; [|done].
    injection Hx as <-. split; [|done].
    assert (Hi : i = length fl) by lia. subst i.
    assert (Hlen : length (concat fl) = (length fl * b)%nat).
    { clear -Hfl. induction Hfl as [|a fl Ha _ IH]; [done|].
      simpl. rewrite length_app, IH, Ha. lia. }
    rewrite drop_app_length' by done.
    by rewrite take_ge by lia.
Qed.

Lemma sizes_to_nat (b : nat) (fl : list (list (gmap string value))) :
  Forall (λ x : list (gmap string value),
            Z.of_nat (length x) = Z.of_nat b) fl →
  Forall (λ x, length x = b) fl.
Proof. intros H. eapply Forall_impl; [exact H|]. simpl. intros; lia. Qed.

(** X2. When no call raises and every document builds, the batches
    flushed by a rebuild with batch size [b >= 1] are the documents of
    the stream, in stream order, each once: the batch of rank [i] holds
    the [b] documents from position [i * b] on (fewer at the end of the
    stream), and no empty batch is sent.  The blue/green rebuild flushes
    the very batches the in-place rebuild flushes. *)
Theorem rebuild_flushes_in_order self (b : nat) h ds :
  (1 ≤ b)%nat → never_raises (__client self) →
  Forall2 (λ i d, __build_object self i = Ok d) (objects_all (model self)) ds →
  concat (flushes (index_all self (Z.of_nat b) h).2) = ds ∧
  (∀ i batch, flushes (index_all self (Z.of_nat b) h).2 !! i = Some batch →
     batch = take b (drop (i * b) ds) ∧ batch ≠ []) ∧
  flushes (reindex_all self (Z.of_nat b) h).2 =
    flushes (index_all self (Z.of_nat b) h).2.
Proof.
  intros Hb Hcl Hds.
  destruct (index_all_total self (Z.of_nat b) h ds Hcl Hds)
    as (batch1 & pre1 & loop1 & fin1 & -> & Hpre1 & _ & Hdocs1 & Hsz1 & Hfin1).
  destruct (reindex_all_total self (Z.of_nat b) h ds Hcl Hds)
    as (batch2 & pre2 & loop2 & fin2 & swap & r & -> & _ & Hpre2 & _ & Hdocs2 &
        Hsz2 & Hfin2 & Hswap).
  destruct Hsz1 as [Hlt1 Hfull1]; [lia|].
  destruct Hsz2 as [Hlt2 Hfull2]; [lia|].
  apply sizes_to_nat in Hfull1, Hfull2.
  assert (Hsw : flushes swap = []).
  { destruct Hswap as [(_ & -> & _)|[(_ & -> & _)|(_ & ? & ? & ? & _ & -> & _)]];
      done. }
  assert (Hp1 : flushes pre1 = []).
  { eapply settings_clear_no_flush; [exact Hpre1|].
    apply settings_calls_no_flush. }
  assert (Hp2 : flushes pre2 = []).
  { eapply settings_clear_no_flush; [exact Hpre2|].
    apply settings_calls_no_flush. }
  simpl. rewrite !flushes_app, Hp1, Hp2, Hsw, Hfin1, Hfin2, app_nil_r. simpl.
  pose proof (chunks_with_rest_lookup b _ batch1 ds Hb Hfull1 ltac:(lia) Hdocs1)
    as H1.
  pose proof (chunks_with_rest_lookup b _ batch2 ds Hb Hfull2 ltac:(lia) Hdocs2)
    as H2.
  set (all1 := flushes loop1 ++ _) in *.
  set (all2 := flushes loop2 ++ _) in *.
  assert (Hconcat1 : concat all1 = ds).
  { subst all1. rewrite concat_app, <- Hdocs1. f_equal.
    destruct batch1; simpl; [done|by rewrite app_nil_r]. }
  assert (Hconcat2 : concat all2 = ds).
  { subst all2. rewrite concat_app, <- Hdocs2. f_equal.
    destruct batch2; simpl; [done|by rewrite app_nil_r]. }
  split_and!; [done|done|].
  (* both lists are cut the same way out of the same documents *)
  assert (Hl1 : length (concat (flushes loop1)) = (length (flushes loop1) * b)%nat).
  { clear -Hfull1. induction Hfull1 as [|a fl Ha _ IH]; [done|].
    rewrite concat_cons, length_app, IH, Ha. simpl. lia. }
  assert (Hl2 : length (concat (flushes loop2)) = (length (flushes loop2) * b)%nat).
  { clear -Hfull2. induction Hfull2 as [|a fl Ha _ IH]; [done|].
    rewrite concat_cons, length_app, IH, Ha. simpl. lia. }
  assert (Hlen : length all2 = length all1).
  { pose proof (f_equal length Hdocs1) as E1.
    pose proof (f_equal length Hdocs2) as E2.
    rewrite length_app, Hl1 in E1. rewrite length_app, Hl2 in E2.
    assert (Ek : length (flushes loop1) = length (flushes loop2)).
    { rewrite (Nat.div_unique (length ds) b (length (flushes loop1))
                 (length batch1)) by lia.
      by rewrite (Nat.div_unique (length ds) b (length (flushes loop2))
                    (length batch2)) by lia. }
    assert (Er : length batch1 = length batch2) by lia.
    subst all1 all2. rewrite !length_app, Ek. f_equal.
    destruct batch1, batch2; simpl in *; done || lia. }
  apply list_eq. intros i.
  destruct (all1 !! i) as [x|] eqn:E1.
  - destruct (lookup_lt_is_Some_2 all2 i) as [y E2].
    { rewrite Hlen. by eapply lookup_lt_Some. }
    rewrite E2. f_equal.
    destruct (H1 _ _ E1) as [-> _]. by destruct (H2 _ _ E2) as [-> _].
  - apply lookup_ge_None in E1. apply lookup_ge_None. lia.
Qed.

Lemma rebuild_flushes_in_order_witness :
  flushes (reindex_all
             (post_index plain_cfg title_loc Post task_client ["title"]) 2 []).2 =
  flushes (index_all
             (post_index plain_cfg title_loc Post task_client ["title"]) 2 []).2.
Proof.
  refine (proj2 (proj2 (rebuild_flushes_in_order
            (post_index plain_cfg title_loc Post task_client ["title"]) 2 []
            (built (post_index plain_cfg title_loc Post task_client ["title"])
               (objects_all Post)) _ _ _))).
  - lia.
  - intros h c. exact I.
  - repeat constructor.
Defined.

(** ** The head of a rebuild: settings and clear *)

Lemma index_all_head self B h :
  never_raises (__client self) →
  ∃ pre,
    pre.*1 = settings_calls self (__index self) ++ [ClearIndex (__index self)] ∧
    all_answered pre ∧
    ∀ r t, index_upload self B (h ++ pre) = (r, t) →
           index_all self B h = (r, pre ++ t).
Proof.
  intros Hcl. rewrite index_all_run. unfold settings_calls, all_answered.
  set (sets := SetSettings (__index self) (settings self)).
  set (clear := ClearIndex (__index self)).
  rewrite bind_run, set_settings_run. fold sets.
  case_bool_decide.
  - pose proof (Hcl h sets) as Hs. cbv zeta.
    destruct (respond (__client self) h sets) as [v|] eqn:Es; [|done].
    pose proof (Hcl (h ++ [(sets, Ok v)]) clear) as Hc.
    destruct (respond (__client self) (h ++ [(sets, Ok v)]) clear)
      as [w|] eqn:Ec; [|done].
    exists [(sets, Ok v); (clear, Ok w)].
    split_and!; [done|by repeat constructor|].
    intros r t Hk. rewrite bind_run. unfold clear_index at 1.
    rewrite invoke_unit_run. fold clear. rewrite Ec.
    rewrite <- app_assoc. simpl in *. by rewrite Hk.
  - pose proof (Hcl (h ++ []) clear) as Hc.
    destruct (respond (__client self) (h ++ []) clear) as [w|] eqn:Ec; [|done].
    exists [(clear, Ok w)]. split_and!; [done|by repeat constructor|].
    intros r t Hk. rewrite bind_run. unfold clear_index at 1.
    rewrite invoke_unit_run. fold clear. rewrite Ec.
    rewrite app_nil_r in *. simpl. by rewrite Hk.
Qed.

Lemma reindex_upload_head self B h :
  never_raises (__client self) →
  ∃ pre,
    pre.*1 = settings_calls self (__tmp_index self) ++
             [ClearIndex (__tmp_index self)] ∧
    all_answered pre ∧
    ∀ r t, reindex_batches self B (h ++ pre) = (r, t) →
           reindex_upload self B h = (r, pre ++ t).
Proof.
  intros Hcl. unfold settings_calls, all_answered.
  change (reindex_upload self B h) with
    (((if bool_decide (settings self ≠ ∅) then
         invoke (__client self)
           (SetSettings (__tmp_index self) (settings self)) ;; mret ()
       else mret ()) ;;
      invoke (__client self) (ClearIndex (__tmp_index self)) ;;
      reindex_batches self B) h).
  set (sets := SetSettings (__tmp_index self) (settings self)).
  set (clear := ClearIndex (__tmp_index self)).
  rewrite bind_run.
  case_bool_decide.
  - rewrite invoke_unit_run.
    pose proof (Hcl h sets) as Hs.
    destruct (respond (__client self) h sets) as [v|] eqn:Es; [|done].
    pose proof (Hcl (h ++ [(sets, Ok v)]) clear) as Hc.
    destruct (respond (__client self) (h ++ [(sets, Ok v)]) clear)
      as [w|] eqn:Ec; [|done].
    exists [(sets, Ok v); (clear, Ok w)].
    split_and!; [done|by repeat constructor|].
    intros r t Hk. rewrite bind_run, invoke_run, Ec.
    rewrite <- app_assoc. simpl in *. by rewrite Hk.
  - pose proof (Hcl (h ++ []) clear) as Hc.
    destruct (respond (__client self) (h ++ []) clear) as [w|] eqn:Ec; [|done].
    exists [(clear, Ok w)]. split_and!; [done|by repeat constructor|].
    intros r t Hk. simpl. rewrite bind_run, invoke_run, Ec.
    rewrite app_nil_r in *. simpl. by rewrite Hk.
Qed.


Lemma reindex_swap_emits self result :
  emits (λ ev : event, is_flush ev.1 = false ∧ is_clear ev.1 = false)
    (reindex_swap self result).
Proof.
  unfold reindex_swap. apply emits_if; [|apply emits_ret].
  apply emits_bind; [apply emits_lift|]. intros task.
  apply emits_bind; [by apply emits_invoke|]. intros _.
  apply emits_bind; [by apply emits_invoke|]. intros _. apply emits_ret.
Qed.

(** A first phase that returns is followed by the second phase, which
    makes no flush. *)
Lemma reindex_all_upload_returned self B h counts result t :
  reindex_upload self B h = (Ok (counts, result), t) →
  ∃ swap,
    reindex_all self B h =
      (match (reindex_swap self result (h ++ t)).1 with
       | Ok _ => Ok counts
       | Raised e => Raised e
       end, t ++ swap) ∧
    swap = (reindex_swap self result (h ++ t)).2 ∧
    flushes swap = [].
Proof.
  intros H. rewrite reindex_all_phases, bind_run, H. cbv iota beta. simpl fst.
  simpl snd. rewrite bind_run.
  pose proof (reindex_swap_emits self result (h ++ t)) as Hsw.
  destruct (reindex_swap self result (h ++ t)) as [[[]|e] t2]; simpl in *.
  - exists t2. rewrite app_nil_r. split_and!; [done..|].
    apply flushes_not_flush. eapply Forall_impl; [exact Hsw|]. by intros ? [? _].
  - exists t2. split_and!; [done..|].
    apply flushes_not_flush. eapply Forall_impl; [exact Hsw|]. by intros ? [? _].
Qed.

Lemma pre_on_index self idx (pre : list event) :
  pre.*1 = settings_calls self idx ++ [ClearIndex idx] →
  Forall (on_index idx) pre.
Proof.
  intros Hpre. apply Forall_forall. intros [c r] Hin.
  assert (Hc : c ∈ pre.*1) by (apply list_elem_of_fmap; by exists (c, r)).
  rewrite Hpre in Hc. unfold on_index. simpl.
  apply elem_of_app in Hc as [Hc|Hc].
  - unfold settings_calls in Hc. case_bool_decide; [|by apply elem_of_nil in Hc].
    by apply list_elem_of_singleton in Hc as ->.
  - by apply list_elem_of_singleton in Hc as ->.
Qed.

Lemma flushes_pre_kind self idx (pre : list event) :
  pre.*1 = settings_calls self idx ++ [ClearIndex idx] →
  Forall (λ ev : event, is_wait ev.1 = false) pre.
Proof.
  intros Hpre. apply Forall_forall. intros [c r] Hin.
  assert (Hc : c ∈ pre.*1) by (apply list_elem_of_fmap; by exists (c, r)).
  rewrite Hpre in Hc. simpl.
  apply elem_of_app in Hc as [Hc|Hc].
  - unfold settings_calls in Hc. case_bool_decide; [|by apply elem_of_nil in Hc].
    by apply list_elem_of_singleton in Hc as ->.
  - by apply list_elem_of_singleton in Hc as ->.
Qed.

(** ** Batch sizes of one and below *)

Lemma upload_loop_singles cl build idx B :
  B ≤ 1 → never_raises cl → ∀ l ds, Forall2 (λ i d, build i = Ok d) l ds →
  ∀ counts result h, ∃ t,
    upload_loop cl build idx B l [] counts result h =
      (Ok ([], (counts + length l)%nat, last_answer t result), t) ∧
    flushes t = (λ d, [d]) <$> ds ∧
    Forall (flush_to idx) t.
Proof.
  intros HB Hcl l ds Hb.
  induction Hb as [|inst d rest ds Hd _ IH]; intros counts result h.
  - exists []. simpl. by rewrite Nat.add_0_r.
  - simpl. rewrite bind_run. unfold lift at 1. rewrite Hd.
    rewrite bind_run.
    assert (Hfull : (Z.of_nat (length [d]) >=? B) = true)
      by (apply Z.geb_le; simpl; lia).
    simpl length in *. rewrite Hfull.
    rewrite bind_run. unfold invoke at 1.
    pose proof (Hcl (h ++ []) (SaveObjects idx [d])) as Hr.
    destruct (respond cl (h ++ []) (SaveObjects idx [d])) as [r|e]; [|done].
    simpl.
    match goal with
    | |- context [upload_loop _ _ _ _ _ _ _ _ ?h'] =>
        destruct (IH (S counts) r h') as (t & Hrun & Hfl & Hall)
    end.
    rewrite Hrun. exists ((SaveObjects idx [d], Ok r) :: t).
    split_and!.
    + simpl. by rewrite Nat.add_succ_r.
    + change (flushes ((SaveObjects idx [d], Ok r) :: t))
        with ([d] :: flushes t).
      rewrite Hfl. reflexivity.
    + constructor; [by eexists _, _|done].
Qed.

(** X3. A batch size of one, of zero or below zero does not stop a
    rebuild: when no call raises and every document builds, each
    document is flushed alone, in stream order, so that [N] records make
    [N] flushes; the in-place rebuild returns [N]. *)
Theorem rebuild_batch_size_at_most_one self B h ds :
  B ≤ 1 → never_raises (__client self) →
  Forall2 (λ i d, __build_object self i = Ok d) (objects_all (model self)) ds →
  (index_all self B h).1 = Ok (length (objects_all (model self))) ∧
  flushes (index_all self B h).2 = (λ d, [d]) <$> ds ∧
  flushes (reindex_all self B h).2 = (λ d, [d]) <$> ds.
Proof.
  intros HB Hcl Hds.
  destruct (index_all_head self B h Hcl) as (pre1 & Hpre1 & _ & Hrun1).
  destruct (reindex_upload_head self B h Hcl) as (pre2 & Hpre2 & _ & Hrun2).
  assert (Hp1 : flushes pre1 = []).
  { eapply settings_clear_no_flush; [exact Hpre1|].
    apply settings_calls_no_flush. }
  assert (Hp2 : flushes pre2 = []).
  { eapply settings_clear_no_flush; [exact Hpre2|].
    apply settings_calls_no_flush. }
  destruct (upload_loop_singles (__client self) (__build_object self)
              (__index self) B HB Hcl _ _ Hds 0%nat VNone (h ++ pre1))
    as (t1 & Hl1 & Hf1 & _).
  destruct (upload_loop_singles (__client self) (__build_object self)
              (__tmp_index self) B HB Hcl _ _ Hds 0%nat VNone (h ++ pre2))
    as (t2 & Hl2 & Hf2 & _).
  assert (Hup1 : index_upload self B (h ++ pre1) =
                 (Ok (length (objects_all (model self))), t1)).
  { unfold index_upload. rewrite bind_run.
    rewrite (index_all_loop_upload self B _ _ _ VNone), Hl1. simpl.
    by rewrite app_nil_r. }
  assert (Hup2 : reindex_batches self B (h ++ pre2) =
                 (Ok (length (objects_all (model self)), last_answer t2 VNone),
                  t2)).
  { unfold reindex_batches. rewrite bind_run.
    rewrite reindex_all_loop_upload, Hl2. simpl. by rewrite app_nil_r. }
  rewrite (Hrun1 _ _ Hup1).
  destruct (reindex_all_upload_returned self B h _ _ _ (Hrun2 _ _ Hup2))
    as (swap & -> & _ & Hsw).
  simpl. rewrite !flushes_app, Hp1, Hp2, Hsw, app_nil_r. by split_and!.
Qed.

Lemma rebuild_batch_size_at_most_one_witness :
  length (flushes
    (index_all (post_index plain_cfg title_loc Post task_client ["title"])
       0 []).2) = 3%nat ∧
  length (flushes
    (reindex_all (post_index plain_cfg title_loc Post task_client ["title"])
       (-5) []).2) = 3%nat.
Proof.
  split.
  - rewrite (proj1 (proj2 (rebuild_batch_size_at_most_one
      (post_index plain_cfg title_loc Post task_client ["title"]) 0 []
      (built (post_index plain_cfg title_loc Post task_client ["title"])
         (objects_all Post))
      ltac:(lia) (λ _ _, I) ltac:(repeat constructor)))).
    reflexivity.
  - rewrite (proj2 (proj2 (rebuild_batch_size_at_most_one
      (post_index plain_cfg title_loc Post task_client ["title"]) (-5) []
      (built (post_index plain_cfg title_loc Post task_client ["title"])
         (objects_all Post))
      ltac:(lia) (λ _ _, I) ltac:(repeat constructor)))).
    reflexivity.
Defined.

(** ** A record that does not build *)





(** ** The answer to the last flush *)

(** The blue/green rebuild over at least one record, no call raising and
    every document building: its flushes carry every document, the last
    of them is answered by the client, and what follows depends on that
    answer alone. *)
Lemma reindex_all_after_last_flush self B h ds :
  never_raises (__client self) →
  Forall2 (λ i d, __build_object self i = Ok d) (objects_all (model self)) ds →
  ds ≠ [] →
  ∃ before b v h' swap r,
    reindex_all self B h =
      (r, before ++ (SaveObjects (__tmp_index self) b, Ok v) :: swap) ∧
    respond (__client self) h' (SaveObjects (__tmp_index self) b) = Ok v ∧
    Forall (on_index (__tmp_index self)) before ∧
    Forall (λ ev : event, is_wait ev.1 = false) before ∧
    ((truthy v = false ∧ swap = [] ∧
      r = Ok (length (objects_all (model self)))) ∨
     (truthy v = true ∧ swap = [] ∧
      ∃ e, getitem_key v "taskID" = Raised e ∧ r = Raised e) ∨
     (truthy v = true ∧
      ∃ task w mv, getitem_key v "taskID" = Ok task ∧
        swap = [(WaitTask (__tmp_index self) task, Ok w);
                (MoveIndex (index_name self +:+ "_tmp") (index_name self),
                 Ok mv)] ∧
        r = Ok (length (objects_all (model self))))).
Proof.
  intros Hnever Hds Hdsne.
  destruct (reindex_all_total self B h ds Hnever Hds)
    as (batch' & pre & loop & fin & swap & r & Hrun & Hup & Hpre & Hfl &
        Hdocs & _ & Hfin & Hswap).
  pose proof (reindex_upload_answered self B h) as Hans.
  rewrite Hup in Hans.
  assert (Hlast : ∃ t' b v,
            loop ++ fin = t' ++ [(SaveObjects (__tmp_index self) b, Ok v)]).
  { destruct (loop ++ fin) as [|ev t] eqn:E using rev_ind.
    - exfalso. apply app_eq_nil in E as [-> ->]. simpl in *.
      destruct batch' as [|d0 rest]; [by subst ds|]. simpl in Hfin. done.
    - clear IHt. apply Forall_app in Hfl as [_ Hev].
      apply Forall_singleton in Hev as (b & v & ->). by exists t, b, v. }
  destruct Hlast as (t' & b & v & Hlast).
  rewrite Hlast in Hswap, Hans, Hfl. rewrite last_answer_snoc_Ok in Hswap.
  cbv zeta in Hswap.
  apply Forall_app in Hans as [_ Hans]. apply Forall_app in Hans as [_ Hans].
  apply Forall_singleton in Hans as [h' Hh']. simpl in Hh'.
  apply Forall_app in Hfl as [Hfl _].
  exists (pre ++ t'), b, v, h', swap, r. split_and!.
  - rewrite Hrun, (app_assoc loop fin), Hlast, <- !app_assoc. done.
  - done.
  - apply Forall_app. split; [exact (pre_on_index _ _ _ Hpre)|].
    by apply flush_to_on_index.
  - apply Forall_app. split; [exact (flushes_pre_kind _ _ _ Hpre)|].
    eapply Forall_impl; [exact Hfl|]. by intros ev (x & y & ->).
  - exact Hswap.
Qed.

(** X5. When the client answers the flushes with a falsy value ([None],
    an empty dictionary, ...), the blue/green rebuild of at least one
    record, no call raising and every document building, returns the
    number of records having made neither the wait nor the move: the
    shadow index is filled and the primary name still serves the old
    index. *)
Theorem reindex_all_falsy_answer self B h :
  never_raises (__client self) →
  Forall (λ i, is_Ok (__build_object self i)) (objects_all (model self)) →
  objects_all (model self) ≠ [] →
  (∀ h' i b v, respond (__client self) h' (SaveObjects i b) = Ok v →
               truthy v = false) →
  (reindex_all self B h).1 = Ok (length (objects_all (model self))) ∧
  count is_wait (reindex_all self B h).2 = 0%nat ∧
  count is_move (reindex_all self B h).2 = 0%nat ∧
  Forall (on_index (__tmp_index self)) (reindex_all self B h).2.
Proof.
  intros Hnever Hbuild Hne Hfalsy.
  destruct (Forall2_build_exists _ _ Hbuild) as [ds Hds].
  assert (Hdsne : ds ≠ []).
  { intros ->. apply Forall2_nil_inv_r in Hds. done. }
  destruct (reindex_all_after_last_flush self B h ds Hnever Hds Hdsne)
    as (before & b & v & h' & swap & r & -> & Hv & Hon & Hnw & Hcases).
  pose proof (Hfalsy _ _ _ _ Hv) as Hf.
  destruct Hcases as [(_ & -> & ->)|[(Ht & _)|(Ht & _)]]; [|congruence..].
  simpl. split_and!; [done| | |].
  - apply count_zero, Forall_app. split; [done|]. by repeat constructor.
  - apply count_zero, Forall_app.
    split; [by apply (on_index_not_move (__tmp_index self))|].
    by repeat constructor.
  - apply Forall_app. split; [done|]. by repeat constructor.
Qed.

Lemma reindex_all_falsy_answer_witness :
  (reindex_all (post_index plain_cfg title_loc Post empty_client ["title"])
     2 []).1 = Ok 3%nat ∧
  count is_move
    (reindex_all (post_index plain_cfg title_loc Post empty_client ["title"])
       2 []).2 = 0%nat.
Proof.
  destruct (reindex_all_falsy_answer
              (post_index plain_cfg title_loc Post empty_client ["title"]) 2 [])
    as (Hr & _ & Hm & _).
  - intros h c. exact I.
  - repeat constructor.
  - discriminate.
  - intros h' i b v Hv. injection Hv as <-. reflexivity.
  - split; [exact Hr|exact Hm].
Defined.

(** X6. When the answers to the flushes are non-empty dictionaries that
    hold no [taskID], the blue/green rebuild of at least one record, no
    call raising and every document building, whatever the batch size,
    makes all its calls on the shadow index, flushes every document, in
    stream order, and then raises [KeyError] for [taskID]: the wait and
    the move are not made and the count is not returned. *)
Theorem reindex_all_answer_without_task self B h ds :
  never_raises (__client self) →
  Forall2 (λ i d, __build_object self i = Ok d) (objects_all (model self)) ds →
  ds ≠ [] →
  (∀ h' i b v, respond (__client self) h' (SaveObjects i b) = Ok v →
     ∃ dct, v = VDict dct ∧ dct ≠ ∅ ∧ dct !! "taskID" = None) →
  (reindex_all self B h).1 = Raised (KeyError (VStr "taskID")) ∧
  concat (flushes (reindex_all self B h).2) = ds ∧
  Forall (on_index (__tmp_index self)) (reindex_all self B h).2 ∧
  count is_wait (reindex_all self B h).2 = 0%nat ∧
  count is_move (reindex_all self B h).2 = 0%nat.
Proof.
  intros Hnever Hds Hdsne Hans.
  destruct (reindex_all_after_last_flush self B h ds Hnever Hds Hdsne)
    as (before & b & v & h' & swap & r & Hrun & Hv & Hon & Hnw & Hcases).
  destruct (Hans _ _ _ _ Hv) as (dct & -> & Hdne & Hnone).
  assert (Hget : getitem_key (VDict dct) "taskID" =
                 Raised (KeyError (VStr "taskID"))) by (simpl; by rewrite Hnone).
  assert (Htr : truthy (VDict dct) = true)
    by (simpl; by apply bool_decide_eq_true_2).
  destruct Hcases as [(Hf & _)|[(_ & -> & e & He & ->)|(_ & ? & ? & ? & He & _)]];
    [congruence| |congruence].
  rewrite Hget in He. injection He as <-.
  split_and!.
  - by rewrite Hrun.
  - destruct (reindex_all_total self B h ds Hnever Hds)
      as (batch' & pre & loop & fin & swap & r' & Hrun' & _ & Hpre & _ &
          Hdocs & _ & Hfin & Hswap).
    rewrite Hrun'. simpl.
    assert (Hsw : flushes swap = []).
    { destruct Hswap as [(_ & -> & _)|[(_ & -> & _)|(_ & ? & ? & ? & _ & -> & _)]];
        done. }
    assert (Hp : flushes pre = []).
    { eapply settings_clear_no_flush; [exact Hpre|].
      apply settings_calls_no_flush. }
    rewrite !flushes_app, Hp, Hsw, Hfin, app_nil_r. simpl.
    rewrite concat_app, <- Hdocs. f_equal.
    destruct batch'; simpl; [done|by rewrite app_nil_r].
  - rewrite Hrun. simpl. apply Forall_app. split; [done|].
    by repeat constructor.
  - rewrite Hrun. simpl. apply count_zero, Forall_app.
    split; [done|]. by repeat constructor.
  - rewrite Hrun. simpl. apply count_zero, Forall_app.
    split; [by apply (on_index_not_move (__tmp_index self))|].
    by repeat constructor.
Qed.

Lemma reindex_all_answer_without_task_witness :
  (reindex_all (post_index plain_cfg title_loc Post untracked_client ["title"])
     2 []).1 = Raised (KeyError (VStr "taskID")).
Proof.
  refine (proj1 (reindex_all_answer_without_task
            (post_index plain_cfg title_loc Post untracked_client ["title"]) 2 []
            (built (post_index plain_cfg title_loc Post untracked_client
                      ["title"]) (objects_all Post)) _ _ _ _)).
  - intros h c. exact I.
  - repeat constructor.
  - discriminate.
  - intros h' i b v Hv. injection Hv as <-. eexists. split; [reflexivity|].
    split; [|reflexivity]. intros H.
    apply (f_equal (λ m : gmap string value, m !! "objectIDs")) in H.
    discriminate.
Defined.

(** ** The document, key by key *)

Lemma build_fields_lookup inst fs : ∀ (tmp d : gmap string value),
  build_fields inst fs tmp = Ok d →
  ∀ k, d !! k =
       if bool_decide (k ∈ fs)
       then match read_selector inst k with
            | Ok v => Some v
            | Raised _ => None
            end
       else tmp !! k.
Proof.
  induction fs as [|f fs IH]; intros tmp d Hrun k; simpl in Hrun.
  - injection Hrun as <-. rewrite bool_decide_eq_false_2; [done|].
    apply not_elem_of_nil.
  - pose proof (read_selector_getattr inst f) as Hsel. simpl in Hsel.
    destruct (getattr (attrs inst) f) as [a|]; simpl in *; [|done].
    rewrite Hsel in Hrun.
    destruct (read_selector inst f) as [v|] eqn:Ev; simpl in Hrun; [|done].
    rewrite (IH _ _ Hrun k).
    destruct (decide (k ∈ fs)) as [Hin|Hnin].
    + rewrite !bool_decide_eq_true_2; [done|by right|done].
    + rewrite (bool_decide_eq_false_2 (k ∈ fs)) by done.
      destruct (decide (k = f)) as [->|Hne].
      * rewrite bool_decide_eq_true_2 by by left.
        by rewrite lookup_insert_eq, Ev.
      * rewrite bool_decide_eq_false_2.
        -- by rewrite lookup_insert_ne.
        -- rewrite elem_of_cons. tauto.
Qed.

Lemma build_fields_ok inst fs : ∀ (tmp d : gmap string value),
  build_fields inst fs tmp = Ok d →
  ∀ f, f ∈ fs → is_Ok (read_selector inst f).
Proof.
  induction fs as [|g fs IH]; intros tmp d Hrun f Hin; simpl in Hrun.
  - by apply elem_of_nil in Hin.
  - pose proof (read_selector_getattr inst g) as Hsel. simpl in Hsel.
    destruct (getattr (attrs inst) g) as [a|]; simpl in *; [|done].
    rewrite Hsel in Hrun.
    destruct (read_selector inst g) as [v|] eqn:Ev; simpl in Hrun; [|done].
    apply elem_of_cons in Hin as [->|Hin]; [by rewrite Ev|].
    by apply (IH _ _ Hrun).
Qed.

(** X7. A document that builds is read off the record key by key: under
    [_geoloc], when a geo-selector is configured, the pair of the first
    two elements of its value; else under the name of a field the value
    of its selector; else under [objectID] the primary key; nothing
    under any other key.  So the geo pair hides a field named [_geoloc],
    and a field named [objectID] hides the primary key. *)
Theorem build_object_entries self inst (d : gmap string value) k :
  __build_object self inst = Ok d →
  d !! k = document_entry self inst k.
Proof.
  unfold __build_object, document_entry. intros Hrun.
  destruct (build_fields inst (fields self) {["objectID" := pk inst]})
    as [d0|] eqn:E0; simpl in Hrun; [|done].
  pose proof (build_fields_lookup _ _ _ _ E0 k) as Hk.
  assert (Hbase : d0 !! k =
            if bool_decide (k ∈ fields self)
            then match read_selector inst k with
                 | Ok v => Some v
                 | Raised _ => None
                 end
            else if bool_decide (k = "objectID") then Some (pk inst) else None).
  { rewrite Hk. destruct (bool_decide (k ∈ fields self)); [done|].
    case_bool_decide as Hoid.
    - rewrite Hoid. by rewrite lookup_singleton_eq.
    - by rewrite lookup_singleton_ne. }
  destruct (truthy_name (geo_field self)); simpl.
  - pose proof (read_selector_getattr inst (default "" (geo_field self)))
      as Hsel. simpl in Hsel.
    destruct (getattr (attrs inst) (default "" (geo_field self))) as [a|];
      simpl in *; [|done].
    rewrite Hsel in Hrun.
    destruct (read_selector inst (default "" (geo_field self))) as [v|];
      simpl in Hrun; [|done].
    destruct (getitem v 0) as [lat|]; simpl in Hrun; [|done].
    destruct (getitem v 1) as [lng|]; simpl in Hrun; [|done].
    injection Hrun as <-.
    destruct (decide (k = "_geoloc")) as [->|Hne].
    + rewrite bool_decide_eq_true_2 by done. by rewrite lookup_insert_eq.
    + rewrite (bool_decide_eq_false_2 (k = "_geoloc")) by done.
      by rewrite lookup_insert_ne.
  - injection Hrun as <-. done.
Qed.

Lemma build_object_entries_witness :
  ∃ d : gmap string value,
    __build_object (post_index plain_cfg objectID_decl Legacy task_client
                      ["objectID"]) (legacy 7 "legacy-7") = Ok d ∧
    d !! "objectID" =
      document_entry (post_index plain_cfg objectID_decl Legacy task_client
                        ["objectID"]) (legacy 7 "legacy-7") "objectID".
Proof.
  eexists. split; [vm_compute; reflexivity|].
  apply build_object_entries. vm_compute. reflexivity.
Defined.

(** When a document builds. *)
Lemma build_object_ok_iff self inst :
  is_Ok (__build_object self inst) ↔
  (∀ f, f ∈ fields self → is_Ok (read_selector inst f)) ∧
  (truthy_name (geo_field self) = true →
   ∃ v, read_selector inst (default "" (geo_field self)) = Ok v ∧
        is_Ok (getitem v 0) ∧ is_Ok (getitem v 1)).
Proof.
  unfold __build_object. split.
  - intros Hok.
    destruct (build_fields inst (fields self) {["objectID" := pk inst]})
      as [d0|] eqn:E0; simpl in Hok; [|done].
    split; [by apply (build_fields_ok _ _ _ _ E0)|].
    intros Hg. rewrite Hg in Hok.
    pose proof (read_selector_getattr inst (default "" (geo_field self)))
      as Hsel. simpl in Hsel.
    destruct (getattr (attrs inst) (default "" (geo_field self))) as [a|];
      simpl in *; [|done].
    rewrite Hsel in Hok.
    destruct (read_selector inst (default "" (geo_field self))) as [v|];
      simpl in Hok; [|done].
    exists v. split; [done|].
    destruct (getitem v 0) as [lat|]; simpl in Hok; [|done].
    destruct (getitem v 1) as [lng|]; simpl in Hok; done.
  - intros [Hsel Hgeo].
    destruct (build_fields_spec inst (fields self) {["objectID" := pk inst]} Hsel)
      as (d & -> & _). simpl.
    destruct (truthy_name (geo_field self)); [|done].
    destruct (Hgeo eq_refl) as (v & Hv & Hlat & Hlng).
    pose proof (read_selector_getattr inst (default "" (geo_field self)))
      as Hread. simpl in Hread. rewrite Hv in Hread.
    destruct (getattr (attrs inst) (default "" (geo_field self))) as [a|];
      simpl in *; [|done].
    rewrite Hread. simpl.
    destruct (getitem v 0); [|done]. destruct (getitem v 1); [|done]. done.
Qed.

(** X9. The geo-selector at build time: a tuple or list of two elements
    or more gives the pair of its first two elements, what follows
    being dropped without a word; with fewer than two elements the
    build raises [IndexError]. *)
Theorem build_object_geo_length self inst l :
  (∀ f, f ∈ fields self → is_Ok (read_selector inst f)) →
  truthy_name (geo_field self) = true →
  (read_selector inst (default "" (geo_field self)) = Ok (VTuple l) ∨
   read_selector inst (default "" (geo_field self)) = Ok (VList l)) →
  ((length l < 2)%nat → __build_object self inst = Raised IndexError) ∧
  (∀ lat lng rest, l = lat :: lng :: rest →
     ∃ d : gmap string value,
       __build_object self inst = Ok d ∧
       d !! "_geoloc" = Some (VDict (<["lng" := lng]> {["lat" := lat]}))).
Proof.
  intros Hsel Hg Hv. split.
  - intros Hlen. unfold __build_object.
    destruct (build_fields_spec inst (fields self) {["objectID" := pk inst]} Hsel)
      as (d & -> & _). simpl. rewrite Hg.
    pose proof (read_selector_getattr inst (default "" (geo_field self)))
      as Hread. simpl in Hread.
    destruct (getattr (attrs inst) (default "" (geo_field self))) as [a|];
      simpl in *; [|by destruct Hv as [Hv|Hv]; rewrite Hv in Hread].
    rewrite Hread.
    destruct Hv as [->| ->]; simpl;
      destruct l as [|x [|y l']]; simpl in *; try done; lia.
  - intros lat lng rest ->.
    assert (Hok : is_Ok (__build_object self inst)).
    { apply build_object_ok_iff. split; [done|]. intros _.
      destruct Hv as [Hv|Hv]; eexists; (split; [exact Hv|]); done. }
    destruct (__build_object self inst) as [d|] eqn:E; [|done].
    exists d. split; [done|].
    rewrite (build_object_entries _ _ _ "_geoloc" E).
    unfold document_entry. rewrite Hg. simpl.
    by destruct Hv as [->| ->].
Qed.

Lemma build_object_geo_length_witness :
  ∃ d : gmap string value,
    __build_object
      {| model := Post; fields := ["title"]; geo_field := Some "loc3";
         index_name := "Post"; settings := ∅; __client := task_client;
         __index := "Post"; __tmp_index := "Post_tmp" |}
      {| pk := VInt 1;
         attrs := <["title" := Data (VStr "x")]>
                  {["loc3" := Data (VTuple [VFloat 1; VFloat 2; VFloat 3])]} |}
    = Ok d ∧
    d !! "_geoloc" =
      Some (VDict (<["lng" := VFloat 2]> {["lat" := VFloat 1]})).
Proof.
  refine (proj2 (build_object_geo_length _ _ [VFloat 1; VFloat 2; VFloat 3]
                   _ _ _) (VFloat 1) (VFloat 2) [VFloat 3] eq_refl).
  - intros f Hf. apply list_elem_of_singleton in Hf as ->. exact I.
  - reflexivity.
  - left. reflexivity.
Defined.

(** X10. The first selector that does not resolve decides the outcome
    of the build: when the fields before it resolve, the build raises
    the exception of that selector ([AttributeError] with the name of
    the field when the record has no such attribute), whatever follows
    it and whatever the geo-selector. *)
Theorem build_object_first_failure self inst before f after e :
  fields self = before ++ f :: after →
  (∀ g, g ∈ before → is_Ok (read_selector inst g)) →
  read_selector inst f = Raised e →
  __build_object self inst = Raised e ∧
  (attrs inst !! f = None → e = AttributeError f).
Proof.
  intros Hfs Hbefore Hf. split.
  - unfold __build_object. rewrite Hfs. clear Hfs.
    generalize ({["objectID" := pk inst]} : gmap string value).
    induction before as [|g before IH]; intros tmp; simpl.
    + pose proof (read_selector_getattr inst f) as Hsel. simpl in Hsel.
      rewrite Hf in Hsel.
      destruct (getattr (attrs inst) f) as [a|]; simpl in *;
        [by rewrite Hsel|by injection Hsel as ->].
    + pose proof (read_selector_getattr inst g) as Hsel. simpl in Hsel.
      assert (Hg : is_Ok (read_selector inst g)) by (apply Hbefore; by left).
      destruct (read_selector inst g) as [v|]; [|done].
      destruct (getattr (attrs inst) g) as [a|]; simpl in *; [|done].
      rewrite Hsel. simpl. apply IH. intros g' Hg'. apply Hbefore. by right.
  - intros Hnone. unfold read_selector in Hf. rewrite Hnone in Hf.
    by injection Hf as <-.
Qed.

Lemma build_object_first_failure_witness :
  __build_object (post_index plain_cfg str_decl Drafts task_client
                    ["id"; "title"; "slug"]) (untitled 10) =
    Raised (AttributeError "title").
Proof.
  refine (proj1 (build_object_first_failure
            (post_index plain_cfg str_decl Drafts task_client
               ["id"; "title"; "slug"])
            (untitled 10) ["id"] "title" ["slug"] (AttributeError "title")
            eq_refl _ eq_refl)).
  intros g Hg. apply list_elem_of_singleton in Hg as ->. exact I.
Defined.

(** ** One record at a time *)

(** X11. Upsert then remove of one record, no call raising and the
    document building: the document is saved on the primary index, then
    the delete is made on the primary index for the primary key of the
    record; when no field is named [objectID] that key is the
    [objectID] of the document just saved, so the remove undoes the
    upsert. *)
Theorem update_then_delete_same_object self inst h :
  never_raises (__client self) →
  is_Ok (__build_object self inst) →
  ∃ (d : gmap string value) o1 o2,
    __build_object self inst = Ok d ∧
    update_then_delete self inst h =
      (Ok (), [(SaveObject (__index self) d, Ok o1);
               (DeleteObject (__index self) (pk inst), Ok o2)]) ∧
    ("objectID" ∉ fields self → d !! "objectID" = Some (pk inst)).
Proof.
  intros Hcl Hok.
  destruct (__build_object self inst) as [d|] eqn:Hd; [|done].
  pose proof (Hcl (h ++ []) (SaveObject (__index self) d)) as H1.
  destruct (respond (__client self) (h ++ []) (SaveObject (__index self) d))
    as [o1|] eqn:E1; [|done].
  pose proof (Hcl (h ++ [(SaveObject (__index self) d, Ok o1)])
                (DeleteObject (__index self) (pk inst))) as H2.
  destruct (respond (__client self) (h ++ [(SaveObject (__index self) d, Ok o1)])
              (DeleteObject (__index self) (pk inst))) as [o2|] eqn:E2; [|done].
  exists d, o1, o2. split_and!; [done| |].
  - unfold update_then_delete, update_obj_index, delete_obj_index.
    rewrite bind_run, bind_run. unfold lift at 1. rewrite Hd.
    rewrite invoke_unit_run, E1. simpl.
    rewrite invoke_unit_run, E2. done.
  - intros Hoid. rewrite (build_object_entries _ _ _ "objectID" Hd).
    unfold document_entry.
    rewrite (bool_decide_eq_false_2 ("objectID" = "_geoloc")) by done.
    rewrite andb_false_r.
    by rewrite bool_decide_eq_false_2, bool_decide_eq_true_2.
Qed.

Lemma update_then_delete_same_object_witness :
  ∃ (d : gmap string value) o1 o2,
    update_then_delete
      (post_index plain_cfg title_loc Post task_client ["title"])
      (post 7 "x") [] =
      (Ok (), [(SaveObject "Post" d, Ok o1);
               (DeleteObject "Post" (VInt 7), Ok o2)]) ∧
    d !! "objectID" = Some (VInt 7).
Proof.
  destruct (update_then_delete_same_object
              (post_index plain_cfg title_loc Post task_client ["title"])
              (post 7 "x") []) as (d & o1 & o2 & _ & Hrun & Hoid).
  - intros h c. exact I.
  - vm_compute. exact I.
  - exists d, o1, o2. split; [exact Hrun|]. apply Hoid.
    simpl. rewrite list_elem_of_singleton. discriminate.
Defined.

Lemma index_all_on_primary self B :
  emits (on_index (__index self)) (index_all self B).
Proof.
  unfold index_all, set_settings, clear_index.
  apply emits_bind.
  { apply emits_if; [|apply emits_ret].
    apply emits_bind; [|intros; apply emits_ret]. by apply emits_invoke. }
  intros _. apply emits_bind.
  { apply emits_bind; [|intros; apply emits_ret]. by apply emits_invoke. }
  intros _. intros h.
  pose proof (index_upload_emits self B h) as Hup.
  eapply Forall_impl; [exact Hup|]. intros [c r] [b Hb]. simpl in Hb.
  by subst c.
Qed.

(** X12. The in-place rebuild, the upsert and the remove of a
    constructed binding call the primary index only: none of their calls
    is a move or a wait, none is made on the shadow index, whose name is
    not the primary one; so, for an engine in which a call on an index
    changes that index only, they leave the shadow index as it was. *)
Theorem primary_operations_spare_shadow {index_state : Type}
    (effect : call → result value → option index_state → option index_state)
    (move_effect : string → string → result value →
                   gmap string index_state → gmap string index_state)
    cfg d m cl h0 self t0 B inst h (eng : gmap string index_state) :
  __init__ cfg d m cl h0 = (Ok self, t0) →
  __index self ≠ __tmp_index self ∧
  ∀ t, t = (index_all self B h).2 ∨ t = (update_obj_index self inst h).2 ∨
       t = (delete_obj_index self inst h).2 →
    Forall (on_index (__index self)) t ∧
    count is_move t = 0%nat ∧
    engine_run effect move_effect eng t !! __tmp_index self =
      eng !! __tmp_index self.
Proof.
  intros Hinit. apply init_bound in Hinit as (Hb & _).
  assert (Hne : __index self ≠ __tmp_index self).
  { intros Heq. by apply (bound_shadow_neq self Hb). }
  split; [done|]. intros t Ht.
  assert (Hon : Forall (on_index (__index self)) t).
  { destruct Ht as [->|[->| ->]].
    - apply index_all_on_primary.
    - unfold update_obj_index.
      apply (emits_bind (on_index (__index self))); [apply emits_lift|].
      intros obj. apply emits_bind; [|intros; apply emits_ret].
      by apply emits_invoke.
    - unfold delete_obj_index.
      apply (emits_bind (on_index (__index self)));
        [|intros; apply emits_ret].
      by apply emits_invoke. }
  split_and!; [done| |].
  - apply count_zero. by apply (on_index_not_move (__index self)).
  - by apply (engine_run_frame _ _ _ _ (__index self)).
Qed.

Lemma primary_operations_spare_shadow_witness :
  "Post" ≠ "Post_tmp" ∧
  Forall (on_index "Post")
    (index_all (post_index plain_cfg title_loc Post task_client ["title"])
       2 []).2.
Proof.
  destruct (primary_operations_spare_shadow (index_state := unit)
              (λ _ _ s, s) (λ _ _ _ e, e)
              plain_cfg title_loc Post task_client []
              (post_index plain_cfg title_loc Post task_client ["title"])
              [(InitIndex "Post", Ok (VObject "Post"));
               (InitIndex "Post_tmp", Ok (VObject "Post_tmp"))]
              2 (post 7 "x") [] ∅) as (Hne & Hall).
  - rewrite init_run. reflexivity.
  - split; [exact Hne|]. apply (Hall _ (or_introl eq_refl)).
Defined.

(** ** What the constructor accepts *)

Lemma check_fields_ok_iff inst all fs :
  check_fields inst all fs = Ok () ↔
  Forall (λ f, ∃ a, attrs inst !! f = Some a ∧
               (callable a = true ∨ f ∈ all)) fs.
Proof.
  induction fs as [|f fs IH]; simpl.
  - split; [constructor|done].
  - unfold getattr. rewrite Forall_cons, <- IH.
    destruct (attrs inst !! f) as [a|]; simpl.
    + destruct (callable a) eqn:Ec.
      * split; [intros H; split; [by eauto|done]|by intros [_ H]].
      * case_bool_decide as Hin.
        -- split; [intros H; split; [by eauto|done]|by intros [_ H]].
        -- split; [done|]. intros [(a' & Ha & [Hc|Hi]) _]; [|done].
           injection Ha as <-. congruence.
    + split; [done|]. by intros [(a' & Ha & _) _].
Qed.

Lemma check_geo_field_ok_iff m geo :
  check_geo_field m geo = Ok () ↔ geo_accepted m geo.
Proof.
  unfold check_geo_field, geo_accepted.
  destruct (truthy_name geo); [|split; [by intros|done]].
  unfold getattr. destruct (class_attrs m !! default "" geo) as [a|]; simpl.
  - destruct (is_tuple a) eqn:Et; simpl.
    + split; [intros _ _; exists a; by eauto|done].
    + destruct (callable a) eqn:Ec; simpl.
      * split; [intros _ _; exists a; by eauto|done].
      * split; [done|]. intros H. destruct (H eq_refl) as (a' & Ha & [?|?]);
          injection Ha as <-; congruence.
  - split; [done|]. intros H. by destruct (H eq_refl) as (a' & Ha & _).
Qed.

Lemma list_remove_ok_iff x l : is_Ok (list_remove x l) ↔ x ∈ l.
Proof.
  split.
  - induction l as [|y l IH]; simpl; [done|].
    destruct (decide (x = y)) as [->|Hne]; [by left|].
    destruct (list_remove x l) as [r|] eqn:E; simpl; [|done].
    intros _. right. by apply IH.
  - intros Hin. by destruct (list_remove_spec x l Hin) as (l1 & l2 & _ & _ & ->).
Qed.

(** X13. Construction never reaches the engine: whatever is declared
    and whether it succeeds or raises, it makes the two [init_index]
    calls, for the primary and for the shadow name, and no other call.
    It succeeds exactly when every declared field is accepted (an
    attribute of a fresh record that is callable or named like a field),
    the geo-selector, when declared, is an attribute of the class that is
    a tuple or callable, and, when no field is declared, the collection
    has a field named [id]. *)
Theorem init_succeeds_iff cfg d m cl h :
  let n := resolved_index_name cfg m (decl_index_name d) in
  (__init__ cfg d m cl h).2 =
    [(InitIndex n, Ok (VObject n));
     (InitIndex (n +:+ "_tmp"), Ok (VObject (n +:+ "_tmp")))] ∧
  (is_Ok (__init__ cfg d m cl h).1 ↔
   Forall (field_accepted m) (normalize_fields (decl_fields d)) ∧
   geo_accepted m (decl_geo_field d) ∧
   (normalize_fields (decl_fields d) = [] → "id" ∈ get_all_field_names m)).
Proof.
  intros n. rewrite init_run. simpl. split; [done|].
  rewrite <- check_geo_field_ok_iff.
  unfold field_accepted. rewrite <- check_fields_ok_iff.
  destruct (check_fields _ _ _) as [[]|e1]; simpl; [|by split; [|intros [? _]]].
  destruct (check_geo_field _ _) as [[]|e2]; simpl;
    [|by split; [|intros (_ & ? & _)]].
  unfold default_fields.
  destruct (normalize_fields (decl_fields d)) as [|f fs]; simpl.
  - pose proof (list_remove_ok_iff "id" (get_all_field_names m)) as Hid.
    destruct (list_remove "id" (get_all_field_names m)) as [r|e3]; simpl in *.
    + split; [intros _; split_and!; [done..|]; intros _; by apply Hid|done].
    + split; [done|]. intros (_ & _ & H). by apply Hid, H.
  - split; [intros _; by split_and!|done].
Qed.

(** X14. With no field declared over a collection whose field names are
    distinct and hold [id], and a geo-selector that is accepted, the
    binding is built and its fields are the field names of the
    collection other than [id]. *)
Theorem init_default_fields_all_but_id cfg d m cl h :
  normalize_fields (decl_fields d) = [] →
  geo_accepted m (decl_geo_field d) →
  NoDup (get_all_field_names m) → "id" ∈ get_all_field_names m →
  ∃ self, (__init__ cfg d m cl h).1 = Ok self ∧
    ("id" ∉ fields self) ∧
    ∀ f, f ∈ fields self ↔ f ∈ get_all_field_names m ∧ f ≠ "id".
Proof.
  intros Hnone Hgeo Hnd Hid. rewrite init_run. simpl. rewrite Hnone. simpl.
  apply check_geo_field_ok_iff in Hgeo. rewrite Hgeo. simpl.
  destruct (default_fields_all_but_id _ Hnd Hid) as (fs & Hfs & Hmem).
  simpl in Hfs. rewrite Hfs. simpl. eexists. split; [done|]. simpl.
  split; [|done]. intros Hin. apply Hmem in Hin as [_ ?]. done.
Qed.

Lemma init_default_fields_all_but_id_witness :
  ∃ self, (__init__ plain_cfg bare_decl Post task_client []).1 = Ok self ∧
          ("id" ∉ fields self).
Proof.
  destruct (init_default_fields_all_but_id plain_cfg bare_decl Post
              task_client []) as (self & Hrun & Hid & _).
  - reflexivity.
  - intros Hg. discriminate Hg.
  - simpl. apply NoDup_cons. split.
    + rewrite list_elem_of_singleton. discriminate.
    + apply NoDup_singleton.
  - simpl. left.
  - exists self. split; [exact Hrun|exact Hid].
Defined.

(** ** The shadow index is cleared first *)

Lemma reindex_after_clear_emits self B :
  emits (λ ev : event, is_clear ev.1 = false ∧
                       ∀ i s, ev.1 ≠ SetSettings i s)
    (reindex_after_clear self B).
Proof.
  unfold reindex_after_clear.
  apply emits_bind.
  { intros h. rewrite reindex_all_loop_upload.
    eapply Forall_impl; [apply upload_loop_emits|].
    intros [c r] [b Hb]. simpl in Hb. by subst c. }
  intros [[batch counts] result]. apply emits_bind.
  { apply emits_if; [|apply emits_ret]. by apply emits_invoke. }
  intros result'. apply emits_bind; [|intros; apply emits_ret].
  apply emits_if; [|apply emits_ret].
  apply emits_bind; [apply emits_lift|]. intros task.
  apply emits_bind; [by apply emits_invoke|]. intros _.
  apply emits_bind; [by apply emits_invoke|]. intros _.
  apply emits_ret.
Qed.

(** The order of the calls of the blue/green rebuild on its shadow
    handle, whatever the client does. *)
Lemma reindex_all_clear_shape self B h :
  ∃ (sets rest : list event),
    sets.*1 = settings_calls self (__tmp_index self) ∧
    Forall (λ ev : event, is_clear ev.1 = false ∧
                          ∀ i s, ev.1 ≠ SetSettings i s) rest ∧
    ((∃ e, (reindex_all self B h).1 = Raised e ∧
           (reindex_all self B h).2 = sets ∧
           Exists (λ ev : event, ev.2 = Raised e) sets)
     ∨
     (∃ o, (reindex_all self B h).2 =
             sets ++ (ClearIndex (__tmp_index self), o) :: rest ∧
           count is_clear (reindex_all self B h).2 = 1%nat)).
Proof.
  change (reindex_all self B h) with
    (((if bool_decide (settings self ≠ ∅) then
         invoke (__client self)
           (SetSettings (__tmp_index self) (settings self)) ;; mret ()
       else mret ()) ;;
      invoke (__client self) (ClearIndex (__tmp_index self)) ;;
      reindex_after_clear self B) h).
  unfold settings_calls.
  set (c := SetSettings (__tmp_index self) (settings self)).
  set (clear := ClearIndex (__tmp_index self)).
  assert (Htail : ∀ h', ∃ o rest,
            ((invoke (__client self) clear ;; reindex_after_clear self B) h').2 =
              (clear, o) :: rest ∧
            Forall (λ ev : event, is_clear ev.1 = false ∧
                                  ∀ i s, ev.1 ≠ SetSettings i s) rest ∧
            count is_clear ((clear, o) :: rest) = 1%nat).
  { intros h'. rewrite bind_run, invoke_run.
    destruct (respond (__client self) h' clear) as [v|e].
    - pose proof (reindex_after_clear_emits self B (h' ++ [(clear, Ok v)]))
        as Hrest.
      destruct (reindex_after_clear self B _) as [r t]. simpl in *.
      exists (Ok v), t. split_and!; [done..|].
      change (S (count is_clear t) = 1%nat). f_equal. apply count_zero.
      eapply Forall_impl; [exact Hrest|]. by intros ev [? _].
    - exists (Raised e), []. by split_and!. }
  rewrite bind_run. case_bool_decide as Hs.
  - rewrite invoke_unit_run.
    destruct (respond (__client self) h c) as [v|e] eqn:Ec.
    + destruct (Htail (h ++ [(c, Ok v)])) as (o & rest & Ht & Hrest & Hcount).
      destruct ((invoke (__client self) clear ;; reindex_after_clear self B) _)
        as [r t]. simpl in *. subst t.
      exists [(c, Ok v)], rest. split_and!; [done..|].
      right. exists o. by split_and!.
    + exists [(c, Raised e)], []. split_and!; [done..|].
      left. exists e. split_and!; [done..|]. by apply Exists_cons_hd.
  - destruct (Htail (h ++ [])) as (o & rest & Ht & Hrest & Hcount).
    simpl.
    destruct ((invoke (__client self) clear ;; reindex_after_clear self B) _)
      as [r t]. simpl in *. subst t.
    exists [], rest. split_and!; [done..|].
    right. exists o. by split_and!.
Qed.

(** X15. In the blue/green rebuild of a constructed binding, whatever
    the client does, the settings, when there are some, are sent first
    and once, as declared, to the shadow index; unless that call raises,
    the shadow index is cleared next, and nothing after is a clear or a
    settings call: the uploads start from a cleared shadow index.  The
    shadow index is not the primary one, and no call of the rebuild
    clears the primary index or sends settings to it. *)
Theorem reindex_all_clears_shadow_first cfg d m cl h0 self t0 B h :
  __init__ cfg d m cl h0 = (Ok self, t0) →
  __tmp_index self ≠ __index self ∧
  Forall (λ ev : event, ev.1 ≠ ClearIndex (__index self) ∧
                        ∀ s, ev.1 ≠ SetSettings (__index self) s)
    (reindex_all self B h).2 ∧
  ∃ (sets rest : list event),
    sets.*1 = settings_calls self (__tmp_index self) ∧
    Forall (λ ev : event, is_clear ev.1 = false ∧
                          ∀ i s, ev.1 ≠ SetSettings i s) rest ∧
    ((∃ e, (reindex_all self B h).1 = Raised e ∧
           (reindex_all self B h).2 = sets ∧
           Exists (λ ev : event, ev.2 = Raised e) sets)
     ∨
     (∃ o, (reindex_all self B h).2 =
             sets ++ (ClearIndex (__tmp_index self), o) :: rest ∧
           count is_clear (reindex_all self B h).2 = 1%nat)).
Proof.
  intros Hinit. apply init_bound in Hinit as (Hb & _).
  pose proof (bound_shadow_neq self Hb) as Hne.
  split; [done|]. split; [|apply reindex_all_clear_shape].
  destruct (reindex_all_shape self B h) as (before & mv & -> & Hbefore & Hmv & _).
  apply Forall_app. split.
  - eapply Forall_impl; [exact Hbefore|]. intros [c r]. unfold on_index.
    simpl. intros Hc. split.
    + intros ->. simpl in Hc. injection Hc as Hc. by apply Hne.
    + intros s ->. simpl in Hc. injection Hc as Hc. by apply Hne.
  - destruct Hmv as [->|(o & -> & _)]; [constructor|].
    repeat constructor; simpl; done.
Qed.

Lemma reindex_all_clears_shadow_first_witness :
  "Post_tmp" ≠ "Post" ∧
  Forall (λ ev : event, ev.1 ≠ ClearIndex "Post" ∧
                        ∀ s, ev.1 ≠ SetSettings "Post" s)
    (reindex_all (post_index plain_cfg title_loc Post task_client ["title"])
       2 []).2.
Proof.
  destruct (reindex_all_clears_shadow_first
              plain_cfg title_loc Post task_client []
              (post_index plain_cfg title_loc Post task_client ["title"])
              [(InitIndex "Post", Ok (VObject "Post"));
               (InitIndex "Post_tmp", Ok (VObject "Post_tmp"))]
              2 []) as (Hne & Hall & _).
  - rewrite init_run. reflexivity.
  - split; [exact Hne|exact Hall].
Defined.

(** ** Names do not collide *)

Lemma append_inj_r (a b s : string) : a +:+ s = b +:+ s → a = b.
Proof.
  revert b. induction a as [|c a IH]; intros [|c' b] H.
  - done.
  - exfalso. apply (f_equal String.length) in H.
    rewrite !length_append in H. simpl in H. lia.
  - exfalso. apply (f_equal String.length) in H.
    rewrite !length_append in H. simpl in H. lia.
  - rewrite !append_cons in H. injection H as -> H. f_equal. by apply IH.
Qed.

Lemma append_inj_l (s a b : string) : s +:+ a = s +:+ b → a = b.
Proof.
  induction s as [|c s IH]; [done|]. rewrite !append_cons.
  intros H. injection H as H. by apply IH.
Qed.

(** X16. Under one configuration, two collections that declare no index
    name and whose type names differ are bound to different primary
    indices and to different shadow indices; and the shadow index of a
    binding is never its own primary index. *)
Theorem resolved_names_distinct cfg m1 m2 :
  __name__ m1 ≠ __name__ m2 →
  let n1 := resolved_index_name cfg m1 None in
  let n2 := resolved_index_name cfg m2 None in
  n1 ≠ n2 ∧ n1 +:+ "_tmp" ≠ n2 +:+ "_tmp" ∧ n1 +:+ "_tmp" ≠ n1.
Proof.
  intros Hne n1 n2.
  assert (H12 : n1 ≠ n2).
  { subst n1 n2. unfold resolved_index_name. simpl. intros H.
    apply Hne.
    destruct (truthy_name (ALGOLIA_INDEX_PREFIX cfg));
      destruct (truthy_name (ALGOLIA_INDEX_SUFFIX cfg)).
    - apply append_inj_r in H. by apply append_inj_l in H.
    - by apply append_inj_l in H.
    - by apply append_inj_r in H.
    - done. }
  split_and!; [done| |apply append_tmp_neq].
  intros H. by apply append_inj_r in H.
Qed.

Lemma resolved_names_distinct_witness :
  resolved_index_name wrapped_cfg Post None ≠
  resolved_index_name wrapped_cfg Country None.
Proof.
  refine (proj1 (resolved_names_distinct wrapped_cfg Post Country _)).
  discriminate.
Defined.
